(** * Ansible deploy driver (ironic_staging_drivers/ansible/deploy.py)

    A shallow embedding of the driver's decision layer: the address resolver,
    the variable assembler (root-device hints, partition plan), the clean-step
    registry, the playbook invoker and the deploy / reboot orchestration.

    Python values are embedded as a small tree type, dictionaries as
    association lists in insertion order, exceptions as an error type, and
    the collaborators the driver calls (power, network, DHCP, subprocess) as
    oracles of an environment whose calls are recorded in a trace. *)

From Stdlib Require Import List String Ascii ZArith Bool Arith Lia.
Import ListNotations.
Open Scope string_scope.
Open Scope list_scope.

#[local] Set Warnings "-register-all".

(** ** Python values *)

(** The values a YAML / JSON document or a node field can hold.  Mappings
    are keyed by strings and keep insertion order.  (Floats, timestamps and
    binary scalars are left out.) *)
Inductive value : Type :=
| VNone
| VBool (b : bool)
| VInt (z : Z)
| VStr (s : string)
| VList (l : list value)
| VDict (d : list (string * value)).

Definition dict := list (string * value).

(** [bool(v)]: Python truthiness. *)
Definition truthy (v : value) : bool :=
  match v with
  | VNone => false
  | VBool b => b
  | VInt z => negb (z =? 0)%Z
  | VStr s => negb (s =? "")
  | VList l => match l with [] => false | _ => true end
  | VDict d => match d with [] => false | _ => true end
  end.

(** Dictionary operations. *)
Module Dict.

(** [d.get(k)] *)
Fixpoint get (d : dict) (k : string) : option value :=
  match d with
  | [] => None
  | (k', v) :: d' => if k' =? k then Some v else get d' k
  end.

(** [d.get(k, default)] *)
Definition get_default (d : dict) (k : string) (default : value) : value :=
  match get d k with Some v => v | None => default end.

(** [k in d] *)
Definition contains (d : dict) (k : string) : bool :=
  match get d k with Some _ => true | None => false end.

(** [d[k] = v]: an existing key keeps its position, a new one goes last. *)
Fixpoint set (d : dict) (k : string) (v : value) : dict :=
  match d with
  | [] => [(k, v)]
  | (k', v') :: d' => if k' =? k then (k', v) :: d' else (k', v') :: set d' k v
  end.

(** [del d[k]] when present (the dictionary left by [d.pop(k, None)]). *)
Fixpoint remove (d : dict) (k : string) : dict :=
  match d with
  | [] => []
  | (k', v') :: d' => if k' =? k then d' else (k', v') :: remove d' k
  end.

(** [d.update(other)] *)
Definition update (d other : dict) : dict :=
  fold_left (fun acc kv => set acc (fst kv) (snd kv)) other d.

(** [d.keys()]; a dictionary has no key twice. *)
Definition keys (d : dict) : list string := map fst d.

End Dict.

(** [a == b] on hashable scalars, [None] when either side is unhashable
    (a list or a dict).  Python identifies [True] with [1] and [False]
    with [0]. *)
Definition as_number (v : value) : option Z :=
  match v with
  | VBool b => Some (if b then 1 else 0)%Z
  | VInt z => Some z
  | _ => None
  end.

Definition hashable (v : value) : bool :=
  match v with
  | VList _ | VDict _ => false
  | _ => true
  end.

Definition eqb_hashable (a b : value) : bool :=
  match a, b with
  | VNone, VNone => true
  | VStr s, VStr t => (s =? t)
  | _, _ =>
      match as_number a, as_number b with
      | Some x, Some y => (x =? y)%Z
      | _, _ => false
      end
  end.

(** ** Strings *)

(** [s.startswith(p)] *)
Fixpoint startswith (p s : string) : bool :=
  match p with
  | EmptyString => true
  | String c p' =>
      match s with
      | EmptyString => false
      | String d s' => Ascii.eqb c d && startswith p' s'
      end
  end.

(** [s[n:]] *)
Fixpoint drop (n : nat) (s : string) : string :=
  match n with
  | O => s
  | S n' => match s with EmptyString => EmptyString | String _ s' => drop n' s' end
  end.

(** [c in s] *)
Fixpoint has_char (c : ascii) (s : string) : bool :=
  match s with
  | EmptyString => false
  | String d s' => Ascii.eqb c d || has_char c s'
  end.

(** [s.split(c)[0]]: the part of [s] before the first [c]. *)
Fixpoint before_char (c : ascii) (s : string) : string :=
  match s with
  | EmptyString => EmptyString
  | String d s' => if Ascii.eqb c d then EmptyString else String d (before_char c s')
  end.

(** [s[s.find(c)+1:]] when [c] occurs in [s]. *)
Fixpoint after_char (c : ascii) (s : string) : option string :=
  match s with
  | EmptyString => None
  | String d s' => if Ascii.eqb c d then Some s' else after_char c s'
  end.

Fixpoint all_chars (p : ascii -> bool) (s : string) : bool :=
  match s with
  | EmptyString => true
  | String c s' => p c && all_chars p s'
  end.

Definition is_digit (c : ascii) : bool :=
  let n := nat_of_ascii c in (48 <=? n)%nat && (n <=? 57)%nat.

Definition is_alpha (c : ascii) : bool :=
  let n := nat_of_ascii c in
  ((65 <=? n)%nat && (n <=? 90)%nat) || ((97 <=? n)%nat && (n <=? 122)%nat).

(** [os.path.join(a, b)] on POSIX paths. *)
Definition ends_with_slash (s : string) : bool :=
  match String.get (String.length s - 1) s with
  | Some c => Ascii.eqb c "/"
  | None => false
  end.

Definition os_path_join (a b : string) : string :=
  if startswith "/" b then b
  else if (a =? "") || ends_with_slash a then (a ++ b)%string
  else (a ++ "/" ++ b)%string.

(** ** Exceptions *)

(** What an operation of the driver can raise.  [InstanceDeployFailure]
    carries its reason: a fixed text, the exception it wraps, or the
    reboot-error message built from a node and an exception. *)
Inductive exn : Type :=
| FailedToGetIPAddressOnPort (node_uuid : string)
| InstanceDeployFailure (r : reason)
| InvalidParameterValue (why : invalid_parameter)
| NodeCleaningFailure (node_uuid : string) (why : cleaning_failure)
| PlaybookNotFound (action : string)
| ProcessExecutionError (text : string)
| RetryError
| KeyError (key : string)
| TypeError
| AttributeError
| ValueError (text : string)
| CollaboratorError (text : string)
with reason : Type :=
| ReasonText (text : string)
| ReasonExc (e : exn)
| ReasonRebootError (node_uuid : string) (e : exn)
with invalid_parameter : Type :=
| HintsValidationFailed (node_uuid : string) (error : string)
| AdvancedHints (node_uuid : string) (hints : dict)
| NetbootUnsupported (node_uuid : string)
with cleaning_failure : Type :=
| FailedToLoad (file : string) (exc : exn)
| MalformedCleanSteps (missing : list (value * string))
| NamesNotUnique.

(** The outcome of a Python call: a returned value or a raised exception. *)
Inductive outcome (A : Type) : Type :=
| Ok (a : A)
| Raise (e : exn).
Arguments Ok {A} a.
Arguments Raise {A} e.

Definition obind {A B} (o : outcome A) (f : A -> outcome B) : outcome B :=
  match o with
  | Ok a => f a
  | Raise e => Raise e
  end.

Declare Scope outcome_scope.
Delimit Scope outcome_scope with outcome.
Notation "'let?' x ':=' c 'in' k" := (obind c (fun x => k))
  (at level 61, x pattern, c at next level, right associativity) : outcome_scope.

(** [d[k]]: raises [KeyError] when the key is absent. *)
Definition getitem (d : dict) (k : string) : outcome value :=
  match Dict.get d k with
  | Some v => Ok v
  | None => Raise (KeyError k)
  end.

(** ** Configuration and node record *)

(** The [ansible] option group of the conductor configuration, with the
    global [debug] and [tempdir] options the driver reads. *)
Record Conf : Type := {
  ansible_extra_args : list string;    (* already tokenised by shlex.split *)
  verbosity : option nat;
  ansible_playbook_script : string;
  playbooks_path : string;
  config_file_path : string;
  post_deploy_get_power_state_retries : nat;
  post_deploy_get_power_state_retry_interval : nat;
  extra_memory : Z;
  use_ramdisk_callback : bool;
  debug : bool;
  tempdir : string
}.

Record node : Type := {
  uuid : string;
  driver_info : dict;
  driver_internal_info : dict;
  instance_info : dict;
  properties : dict;
  extra : value
}.

Definition DEFAULT_PLAYBOOKS : dict :=
  [("deploy", VStr "deploy.yaml");
   ("shutdown", VStr "shutdown.yaml");
   ("clean", VStr "clean.yaml")].

Definition DEFAULT_CLEAN_STEPS : string := "clean_steps.yaml".

(** [ironic.common.states] constants used by the driver. *)
Module states.
Definition POWER_ON : string := "power on".
Definition POWER_OFF : string := "power off".
Definition REBOOT : string := "rebooting".
Definition DEPLOYWAIT : string := "wait call-back".
Definition DEPLOYDONE : string := "deploy complete".
End states.

(** Library functions the driver calls whose code is not part of the
    driver: [deploy_utils.get_disk_label], ironic_lib's
    [parse_root_device_hints] (raising [ValueError] with a text), the
    built-in [int] on strings ([None] for [ValueError]),
    [urlparse.unquote], and reading a YAML file with [yaml.safe_load]. *)
Record Lib : Type := {
  get_disk_label : node -> value;
  irlib_parse_root_device_hints : value -> string + dict;
  int_of_str : string -> option Z;
  unquote : string -> string;
  yaml_safe_load_file : string -> outcome value
}.

(** ** Collaborators, traces and the effect monad *)

(** One argument of the command line handed to [utils.execute]: a literal,
    a ["prefix%s" % v] format of a value, or [json.dumps v]. *)
Inductive arg : Type :=
| Arg (s : string)
| ArgFmt (prefix : string) (v : value)
| ArgJson (v : value).

(** Log and error-report messages built with [%] from a node and an
    exception. *)
Inductive message : Type :=
| MsgDeployFailed (node_uuid : string) (exc : exn)
| MsgSoftPowerOffFailed (node_uuid : string) (timeout : Z) (error : exn)
| MsgErrorRebooting (node_uuid : string) (error : exn).

(** The calls the driver makes on its collaborators. *)
Inductive event : Type :=
| node_power_action (new_state : string)
| get_ip_addresses
| download_size (image_source : value)
| write_file (path : string) (content : value)
| execute (args : list arg)
| get_power_state
| sleep (ms : nat)
| node_set_boot_device (device : string) (persistent : bool)
| remove_provisioning_network
| configure_tenant_networks
| clean_up_ramdisk
| set_failed_state (msg : message) (collect_logs : bool)
| log_and_raise_deployment_error (msg : message)
| process_event (ev : string)
| LOG_warning (msg : message)
| LOG_exception (msg : message).

Definition trace := list event.

(** The world around the driver.  [raises tr ev] tells whether the call [ev],
    made after the calls [tr], raises; the other fields give what the
    value-returning collaborators return when they do not raise. *)
Record Env : Type := {
  CONF : Conf;
  LIB : Lib;
  raises : trace -> event -> option exn;
  ip_addresses : trace -> list string;
  image_size : trace -> value -> Z;
  power_state : trace -> string;
  output : trace -> list arg -> string * string
}.

(** A computation reads the environment, extends the trace and returns or
    raises. *)
Definition M (A : Type) : Type := Env -> trace -> outcome A * trace.

Definition ret {A} (a : A) : M A := fun _ tr => (Ok a, tr).

Definition raise {A} (e : exn) : M A := fun _ tr => (Raise e, tr).

Definition bind {A B} (m : M A) (k : A -> M B) : M B :=
  fun env tr =>
    match m env tr with
    | (Ok a, tr') => k a env tr'
    | (Raise e, tr') => (Raise e, tr')
    end.

(** [try: m except Exception as e: h e] *)
Definition try_except {A} (m : M A) (h : exn -> M A) : M A :=
  fun env tr =>
    match m env tr with
    | (Ok a, tr') => (Ok a, tr')
    | (Raise e, tr') => h e env tr'
    end.

Definition lift {A} (o : outcome A) : M A := fun _ tr => (o, tr).

Definition config : M Conf := fun env tr => (Ok (CONF env), tr).

Declare Scope m_scope.
Delimit Scope m_scope with M.
Notation "x <- c ;; k" := (bind c (fun x => k))
  (at level 61, c at next level, right associativity) : m_scope.
Notation "c ;;; k" := (bind c (fun _ => k))
  (at level 61, right associativity) : m_scope.
Open Scope m_scope.

(** A collaborator call returning nothing. *)
Definition call (ev : event) : M unit :=
  fun env tr =>
    match raises env tr ev with
    | Some e => (Raise e, tr ++ [ev])
    | None => (Ok tt, tr ++ [ev])
    end.

(** A call that cannot raise (logging, sleeping). *)
Definition emit (ev : event) : M unit := fun _ tr => (Ok tt, tr ++ [ev]).

(** A collaborator call returning what [f] tells. *)
Definition call_returning {A} (ev : event) (f : Env -> trace -> A) : M A :=
  fun env tr =>
    match raises env tr ev with
    | Some e => (Raise e, tr ++ [ev])
    | None => (Ok (f env tr), tr ++ [ev])
    end.

(** ** Address resolver *)

(** [_get_node_ip_dhcp] *)
Definition _get_node_ip_dhcp (n : node) : M string :=
  ip_addrs <- call_returning get_ip_addresses ip_addresses ;;
  match ip_addrs with
  | [] => raise (FailedToGetIPAddressOnPort (uuid n))
  | first :: _ =>
      if (1 <? List.length ip_addrs)%nat then
        raise (InstanceDeployFailure
                 (ReasonText ("Ansible driver does not support multiple IP addresses "
                              ++ "during deploy or cleaning")%string))
      else ret first
  end.

(** [urlparse.urlparse(url)], after urllib's [urlsplit], as far as its
    scheme and network location go: the scheme (letters, digits, [+-.]
    before the first colon, unless what follows is a port number) is taken
    off and lower-cased; when the rest starts with [//] the network location
    runs up to the first of [/?#]; a location with an unmatched square
    bracket raises [ValueError]. *)
Definition is_scheme_char (c : ascii) : bool :=
  is_alpha c || is_digit c || has_char c "+-.".

Definition lower_char (c : ascii) : ascii :=
  let n := nat_of_ascii c in
  if (65 <=? n)%nat && (n <=? 90)%nat then ascii_of_nat (n + 32) else c.

Fixpoint lower (s : string) : string :=
  match s with
  | EmptyString => EmptyString
  | String c s' => String (lower_char c) (lower s')
  end.

Definition split_scheme (url : string) : string * string :=
  match after_char ":" url with
  | None => ("", url)
  | Some rest =>
      let pre := before_char ":" url in
      if pre =? "" then ("", url)
      else if pre =? "http" then ("http", rest)
      else if all_chars is_scheme_char pre then
        if negb (rest =? "") && all_chars is_digit rest then ("", url)
        else (lower pre, rest)
      else ("", url)
  end.

Definition is_netloc_delim (c : ascii) : bool := has_char c "/?#".

Fixpoint take_netloc (s : string) : string :=
  match s with
  | EmptyString => EmptyString
  | String c s' => if is_netloc_delim c then EmptyString else String c (take_netloc s')
  end.

Record ParseResult : Type := { scheme : string; netloc : string }.

Definition urlparse (url : string) : outcome ParseResult :=
  let (scheme, rest) := split_scheme url in
  if startswith "//" rest then
    let netloc := take_netloc (drop 2 rest) in
    if (has_char "[" netloc && negb (has_char "]" netloc))
       || (has_char "]" netloc && negb (has_char "[" netloc))
    then Raise (ValueError "Invalid IPv6 URL")
    else Ok {| scheme := scheme; netloc := netloc |}
  else Ok {| scheme := scheme; netloc := "" |}.

(** [_get_node_ip_heartbeat] *)
Definition _get_node_ip_heartbeat (n : node) : outcome string :=
  match Dict.get_default (driver_internal_info n) "agent_url" (VStr "") with
  | VStr callback_url =>
      (let? parsed := urlparse callback_url in
       Ok (before_char ":" (netloc parsed)))%outcome
  | _ => Raise TypeError
  end.

(** [_get_node_ip] *)
Definition _get_node_ip (n : node) : M string :=
  c <- config ;;
  if use_ramdisk_callback c then lift (_get_node_ip_heartbeat n)
  else _get_node_ip_dhcp n.

(** ** Variable assembler: partition plan *)

(** [x == 'text'] for a value [x]. *)
Definition is_str (x : value) (text : string) : bool :=
  match x with
  | VStr s => s =? text
  | _ => false
  end.

(** [a or b] *)
Definition py_or (a b : value) : value := if truthy a then a else b.

(** [_parse_partitioning_info] *)
Definition _parse_partitioning_info (lib : Lib) (n : node) : outcome dict :=
  let info := instance_info n in
  let i_info : dict := [] in
  let partitions : list value := [] in
  let label := py_or (get_disk_label lib n) (VStr "msdos") in
  let i_info := Dict.set i_info "label" label in
  (* prepend 1MiB bios_grub partition for GPT so that grub(2) installs *)
  let partitions :=
    if is_str label "gpt" then
      let bios_partition :=
        VDict [("name", VStr "bios"); ("size", VInt 1); ("unit", VStr "MiB");
               ("flags", VDict [("bios_grub", VStr "yes")])] in
      partitions ++ [bios_partition]
    else partitions in
  (let? ephemeral_mb := getitem info "ephemeral_mb" in
   let? (i_info, partitions) :=
     if truthy ephemeral_mb then
       let? ephemeral_format := getitem info "ephemeral_format" in
       let i_info := Dict.set i_info "ephemeral_format" ephemeral_format in
       let ephemeral_partition :=
         VDict [("name", VStr "ephemeral"); ("size", ephemeral_mb);
                ("unit", VStr "MiB"); ("format", ephemeral_format)] in
       let partitions := partitions ++ [ephemeral_partition] in
       let? preserve_ephemeral := getitem info "preserve_ephemeral" in
       Ok (Dict.set i_info "preserve_ephemeral"
             (VStr (if truthy preserve_ephemeral then "yes" else "no")),
           partitions)
     else Ok (i_info, partitions) in
   let? swap_mb := getitem info "swap_mb" in
   let partitions :=
     if truthy swap_mb then
       partitions ++ [VDict [("name", VStr "swap"); ("size", swap_mb);
                             ("unit", VStr "MiB"); ("format", VStr "linux-swap")]]
     else partitions in
   (* pre-create partition for configdrive *)
   let configdrive := Dict.get_default info "configdrive" VNone in
   let partitions :=
     if truthy configdrive then
       partitions ++ [VDict [("name", VStr "configdrive"); ("size", VInt 64);
                             ("unit", VStr "MiB"); ("format", VStr "fat32")]]
     else partitions in
   (* make the root partition last so that e.g. cloud-init can grow it *)
   let? root_mb := getitem info "root_mb" in
   let root_partition : dict :=
     [("name", VStr "root"); ("size", root_mb); ("unit", VStr "MiB")] in
   let root_partition :=
     if is_str label "msdos" then
       Dict.set root_partition "flags" (VDict [("boot", VStr "yes")])
     else root_partition in
   let partitions := partitions ++ [VDict root_partition] in
   let i_info := Dict.set i_info "partitions" (VList partitions) in
   Ok [("partition_info", VDict i_info)])%outcome.

(** ** Variable assembler: root-device hints *)

(** The loop of [_parse_root_device_hints] over [parsed_hints.items()],
    filling [root_device_hints] and [advanced]. *)
Fixpoint convert_hints (lib : Lib) (items : dict) (root_device_hints advanced : dict)
  : outcome (dict * dict) :=
  match items with
  | [] => Ok (root_device_hints, advanced)
  | (hint, value) :: items' =>
      match value with
      | VStr s =>
          if startswith "== " s then
            match int_of_str lib (drop 3 s) with
            | Some i => convert_hints lib items' (Dict.set root_device_hints hint (VInt i)) advanced
            | None => Raise (ValueError (drop 3 s))
            end
          else if startswith "s== " s then
            convert_hints lib items'
              (Dict.set root_device_hints hint (VStr (unquote lib (drop 4 s)))) advanced
          else
            convert_hints lib items' root_device_hints (Dict.set advanced hint value)
      | _ => convert_hints lib items' (Dict.set root_device_hints hint value) advanced
      end
  end.

(** [_parse_root_device_hints] *)
Definition _parse_root_device_hints (lib : Lib) (n : node) : outcome dict :=
  let root_device := Dict.get_default (properties n) "root_device" VNone in
  if negb (truthy root_device) then Ok []
  else
    match irlib_parse_root_device_hints lib root_device with
    | inl e => Raise (InvalidParameterValue (HintsValidationFailed (uuid n) e))
    | inr parsed_hints =>
        (let? (root_device_hints, advanced) := convert_hints lib parsed_hints [] [] in
         match advanced with
         | _ :: _ => Raise (InvalidParameterValue (AdvancedHints (uuid n) advanced))
         | [] => Ok root_device_hints
         end)%outcome
    end.

(** ** Clean-step registry *)

(** [for x in v]: a list yields its items, a dict its keys, a string its
    characters; anything else is not iterable. *)
Definition iterate (v : value) : outcome (list value) :=
  match v with
  | VList l => Ok l
  | VDict d => Ok (map VStr (Dict.keys d))
  | VStr s => Ok (map (fun c => VStr (String c EmptyString)) (list_ascii_of_string s))
  | _ => Raise TypeError
  end.

(** [len(v)] *)
Definition len (v : value) : outcome nat :=
  match v with
  | VList l => Ok (List.length l)
  | VDict d => Ok (List.length d)
  | VStr s => Ok (String.length s)
  | _ => Raise TypeError
  end.

(** The receiver of [v.get(...)], [v.items()] or [v.pop(...)]: only a dict
    has these methods. *)
Definition as_dict (v : value) : outcome dict :=
  match v with
  | VDict d => Ok d
  | _ => Raise AttributeError
  end.

(** [v[k]] for a string key [k]. *)
Definition subscript (v : value) (k : string) : outcome value :=
  match v with
  | VDict d => getitem d k
  | _ => Raise TypeError
  end.

(** [set(l)]: the distinct items of [l] in order of first occurrence;
    an unhashable item raises [TypeError]. *)
Fixpoint py_set_from (l : list value) (acc : list value) : outcome (list value) :=
  match l with
  | [] => Ok acc
  | x :: l' =>
      if hashable x then
        py_set_from l' (if existsb (eqb_hashable x) acc then acc else acc ++ [x])
      else Raise TypeError
  end.

Definition py_set (l : list value) : outcome (list value) := py_set_from l [].

(** [[f x for x in l]] for an [f] that may raise. *)
Fixpoint map_outcome {A B} (f : A -> outcome B) (l : list A) : outcome (list B) :=
  match l with
  | [] => Ok []
  | x :: l' =>
      (let? y := f x in
       let? ys := map_outcome f l' in
       Ok (y :: ys))%outcome
  end.

(** The inner loop of [_validate_clean_steps] over [args.items()]. *)
Fixpoint check_args (name : value) (items : dict) (missing : list (value * string))
  : outcome (list (value * string)) :=
  match items with
  | [] => Ok missing
  | (arg_name, arg) :: items' =>
      (let? a := as_dict arg in
       if truthy (Dict.get_default a "required" (VBool false))
          && negb (Dict.contains a "value")
       then check_args name items' (missing ++ [(name, (arg_name ++ ".value")%string)])
       else check_args name items' missing)%outcome
  end.

(** The outer loop of [_validate_clean_steps] over the steps. *)
Fixpoint check_steps (steps : list value) (missing : list (value * string))
  : outcome (list (value * string)) :=
  match steps with
  | [] => Ok missing
  | step :: steps' =>
      (let? d := as_dict step in
       let name := Dict.get_default d "name" VNone in
       if negb (truthy name) then
         check_steps steps' (missing ++ [(VStr "undefined", "name")])
       else
         let missing :=
           if negb (Dict.contains d "interface")
           then missing ++ [(name, "interface")] else missing in
         let? args := as_dict (Dict.get_default d "args" (VDict [])) in
         let? missing := check_args name args missing in
         check_steps steps' missing)%outcome
  end.

(** [_validate_clean_steps] *)
Definition _validate_clean_steps (steps : value) (node_uuid : string) : outcome unit :=
  (let? items := iterate steps in
   let? missing := check_steps items [] in
   match missing with
   | _ :: _ => Raise (NodeCleaningFailure node_uuid (MalformedCleanSteps missing))
   | [] =>
       let? names := map_outcome (fun s => subscript s "name") items in
       let? distinct := py_set names in
       let? n := len steps in
       if negb (List.length distinct =? n)%nat
       then Raise (NodeCleaningFailure node_uuid NamesNotUnique)
       else Ok tt
   end)%outcome.

(** The loop of [_get_clean_steps] over [argsinfo.items()]: every
    [arg_info.pop('value', None)] goes to [args] and leaves [arg_info]
    without its ['value'].  This is the loop on a document given as a
    tree, in which every mapping is an object of its own; on a document in
    which an alias makes two places hold one mapping, the [pop] is seen from
    both, and the loop is [pop_values_shared] below. *)
Fixpoint pop_values (items : dict) (argsinfo args : dict) : outcome (dict * dict) :=
  match items with
  | [] => Ok (argsinfo, args)
  | (arg, arg_info) :: items' =>
      (let? a := as_dict arg_info in
       pop_values items'
         (Dict.set argsinfo arg (VDict (Dict.remove a "value")))
         (Dict.set args arg (Dict.get_default a "value" VNone)))%outcome
  end.

(** [override.get(name)] on a dict with string keys. *)
Definition lookup_name (override : dict) (name : value) : option value :=
  match name with
  | VStr s => Dict.get override s
  | _ => None
  end.

(** One step dictionary of [_get_clean_steps], from the declaration
    [params] of a step that passed the interface filter. *)
Definition make_step (params name clean_if : value) (override : dict) : outcome value :=
  (let? p := as_dict params in
   let new_priority :=
     match lookup_name override name with Some v => v | None => VNone end in
   let priority :=
     match new_priority with
     | VNone => Dict.get_default p "priority" (VInt 0)
     | _ => new_priority
     end in
   let argsinfo := Dict.get_default p "args" (VDict []) in
   let? items := as_dict argsinfo in
   let? (argsinfo, args) := pop_values items items [] in
   Ok (VDict [("interface", clean_if); ("step", name); ("priority", priority);
              ("abortable", VBool false); ("argsinfo", VDict argsinfo);
              ("args", VDict args)]))%outcome.

(** [interface is not None and interface != clean_if] *)
Definition filtered_out (interface : option string) (clean_if : value) : bool :=
  match interface with
  | Some i => negb (is_str clean_if i)
  | None => false
  end.

(** The loop of [_get_clean_steps] over [internal_steps]. *)
Fixpoint build_steps (internal_steps : list value) (interface : option string)
  (override : dict) (steps : list value) : outcome (list value) :=
  match internal_steps with
  | [] => Ok steps
  | params :: rest =>
      (let? name := subscript params "name" in
       let? clean_if := subscript params "interface" in
       if filtered_out interface clean_if then
         build_steps rest interface override steps
       else
         let? step := make_step params name clean_if override in
         build_steps rest interface override (steps ++ [step]))%outcome
  end.

(** [override_priorities or {}] *)
Definition override_or_empty (override_priorities : option dict) : dict :=
  match override_priorities with
  | Some d => d
  | None => []
  end.

(** [_get_clean_steps]; [override_priorities] is [None] or a dict. *)
Definition _get_clean_steps (conf : Conf) (lib : Lib) (n : node)
  (interface : option string) (override_priorities : option dict)
  : outcome (list value) :=
  match Dict.get_default (driver_info n) "ansible_clean_steps_config"
          (VStr DEFAULT_CLEAN_STEPS) with
  | VStr clean_steps_file =>
      let path := os_path_join (playbooks_path conf) clean_steps_file in
      match yaml_safe_load_file lib path with
      | Raise e => Raise (NodeCleaningFailure (uuid n) (FailedToLoad path e))
      | Ok internal_steps =>
          (let? _ := _validate_clean_steps internal_steps (uuid n) in
           let override := override_or_empty override_priorities in
           let? items := iterate internal_steps in
           build_steps items interface override [])%outcome
      end
  | _ => Raise TypeError
  end.

(** ** Driver options of a node *)

(** [PlaybookNotFound] is raised when no playbook is set for the action. *)
Definition _parse_ansible_driver_info (n : node) (action : string)
  : outcome (value * value * value) :=
  let user := Dict.get_default (driver_info n) "ansible_deploy_username" (VStr "ansible") in
  let key := Dict.get_default (driver_info n) "ansible_deploy_key_file" VNone in
  let playbook :=
    Dict.get_default (driver_info n) ("ansible_" ++ action ++ "_playbook")%string
      (Dict.get_default DEFAULT_PLAYBOOKS action VNone) in
  if negb (truthy playbook) then Raise (PlaybookNotFound action)
  else Ok (playbook, user, key).

(** [_get_configdrive_path] *)
Definition _get_configdrive_path (conf : Conf) (basename : string) : string :=
  os_path_join (tempdir conf) (basename ++ ".cndrive")%string.

(** ** External tool invoker *)

(** [_prepare_extra_vars] for a host list of [(uuid, ip, user, extra)]. *)
Definition _prepare_extra_vars (host_list : list (string * string * value * value))
  (variables : dict) : dict :=
  let nodes_var :=
    map (fun h =>
           match h with
           | (node_uuid, ip, user, extra) =>
               VDict [("name", VStr node_uuid); ("ip", VStr ip);
                      ("user", user); ("extra", extra)]
           end) host_list in
  let extra_vars := [("nodes", VList nodes_var)] in
  match variables with
  | _ :: _ => Dict.update extra_vars variables
  | [] => extra_vars
  end.

Definition INVENTORY_FILE (conf : Conf) : string :=
  os_path_join (playbooks_path conf) "inventory".

(** ['v' * n] *)
Fixpoint repeat_v (n : nat) : string :=
  match n with
  | O => EmptyString
  | S n' => String "v" (repeat_v n')
  end.

(** The command line [_run_playbook] builds. *)
Definition playbook_command (conf : Conf) (name : string) (extra_vars : dict)
  (key : value) (tags notags : list string) : list arg :=
  let playbook := os_path_join (playbooks_path conf) name in
  let ironic_vars := VDict [("ironic", VDict extra_vars)] in
  let args := [Arg (ansible_playbook_script conf); Arg playbook;
               Arg "-i"; Arg (INVENTORY_FILE conf);
               Arg "-e"; ArgJson ironic_vars] in
  let args :=
    if negb (config_file_path conf =? "") then
      [Arg "env"; Arg ("ANSIBLE_CONFIG=" ++ config_file_path conf)%string] ++ args
    else args in
  let args :=
    match tags with
    | _ :: _ => args ++ [Arg ("--tags=" ++ String.concat "," tags)%string]
    | [] => args
    end in
  let args :=
    match notags with
    | _ :: _ => args ++ [Arg ("--skip-tags=" ++ String.concat "," notags)%string]
    | [] => args
    end in
  let args :=
    if truthy key then args ++ [ArgFmt "--private-key=" key] else args in
  let verbosity :=
    match verbosity conf with
    | None => if debug conf then Some 4%nat else None
    | Some v => Some v
    end in
  let args :=
    match verbosity with
    | Some (S _ as v) => args ++ [Arg ("-" ++ repeat_v v)%string]
    | _ => args
    end in
  args ++ map Arg (ansible_extra_args conf).

(** [_run_playbook]: a [ProcessExecutionError] of the subprocess becomes an
    [InstanceDeployFailure]; anything else it raises passes through. *)
Definition _run_playbook (name : value) (extra_vars : dict) (key : value)
  (tags notags : list string) : M (string * string) :=
  conf <- config ;;
  match name with
  | VStr name =>
      let args := playbook_command conf name extra_vars key tags notags in
      try_except (call_returning (execute args) (fun env tr => output env tr args))
        (fun e =>
           match e with
           | ProcessExecutionError _ => raise (InstanceDeployFailure (ReasonExc e))
           | _ => raise e
           end)
  | _ => raise TypeError
  end.

(** ** Variable assembler: image, config drive, hints *)

Definition Mi : Z := 1048576.

(** [_calculate_memory_req] *)
Definition _calculate_memory_req (n : node) : M Z :=
  conf <- config ;;
  image_source <- lift (getitem (instance_info n) "image_source") ;;
  image_size <- call_returning (download_size image_source)
                  (fun env tr => image_size env tr image_source) ;;
  ret (image_size / Mi + extra_memory conf)%Z.

(** The loop of [_prepare_variables] copying the [image_] keys. *)
Fixpoint image_variables (items : dict) (image : dict) : dict :=
  match items with
  | [] => image
  | (i_key, i_value) :: items' =>
      if startswith "image_" i_key
      then image_variables items' (Dict.set image (drop 6 i_key) i_value)
      else image_variables items' image
  end.

(** [_prepare_variables].  A checksum or a config drive that is set but is
    not a string is taken to raise [TypeError]. *)
Definition _prepare_variables (n : node) : M dict :=
  conf <- config ;;
  let i_info := instance_info n in
  let image := image_variables i_info [] in
  mem_req <- _calculate_memory_req n ;;
  let image := Dict.set image "mem_req" (VInt mem_req) in
  let checksum := Dict.get_default image "checksum" VNone in
  image <-
    (if truthy checksum then
       match checksum with
       | VStr c =>
           (* checksum can be in <algo>:<checksum> format; with no <algo>
              it is taken to come from Glance, which reports MD5 *)
           if negb (has_char ":" c)
           then ret (Dict.set image "checksum" (VStr ("md5:" ++ c)%string))
           else ret image
       | _ => raise TypeError
       end
     else ret image) ;;
  let variables : dict := [("image", VDict image)] in
  let configdrive := Dict.get_default i_info "configdrive" VNone in
  variables <-
    (if truthy configdrive then
       match configdrive with
       | VStr c =>
           parsed <- lift (urlparse c) ;;
           if (scheme parsed =? "http") || (scheme parsed =? "https") then
             ret (Dict.set variables "configdrive"
                    (VDict [("type", VStr "url"); ("location", configdrive)]))
           else
             let cfgdrv_location := _get_configdrive_path conf (uuid n) in
             call (write_file cfgdrv_location configdrive) ;;;
             ret (Dict.set variables "configdrive"
                    (VDict [("type", VStr "file");
                            ("location", VStr cfgdrv_location)]))
       | _ => raise TypeError
       end
     else ret variables) ;;
  root_device_hints <- (fun env => lift (_parse_root_device_hints (LIB env) n) env) ;;
  match root_device_hints with
  | _ :: _ => ret (Dict.set variables "root_device_hints" (VDict root_device_hints))
  | [] => ret variables
  end.

(** ** Provisioning orchestrator *)

(** [AnsibleDeploy._ansible_deploy] *)
Definition _ansible_deploy (n : node) (node_address : string) : M unit :=
  conf <- config ;;
  let notags := if use_ramdisk_callback conf then ["wait"] else [] in
  variables <- _prepare_variables n ;;
  variables <-
    (if negb (truthy (Dict.get_default (driver_internal_info n)
                        "is_whole_disk_image" VNone))
     then
       partition_info <- (fun env => lift (_parse_partitioning_info (LIB env) n) env) ;;
       ret (Dict.update variables partition_info)
     else ret variables) ;;
  parsed <- lift (_parse_ansible_driver_info n "deploy") ;;
  match parsed with
  | (playbook, user, key) =>
      let node_list := [(uuid n, node_address, user, extra n)] in
      let extra_vars := _prepare_extra_vars node_list variables in
      (* any caller should manage exceptions raised from here *)
      _run_playbook playbook extra_vars key [] notags ;;;
      ret tt
  end.

(** Modelled from the spec: the retry decorator comes from the retrying
    library, whose code is not part of the driver.  The convergence poller
    "calls the read function once per attempt; stops successfully the first
    time the observed value equals the target value; otherwise sleeps the
    fixed interval and retries; after exhausting attempts without success,
    fails".  As in the library's call loop, an attempt that raises counts as
    unsuccessful, and after the last attempt its exception is raised again,
    or [RetryError] for a rejected result.  [more] counts the attempts still
    allowed after the next one. *)
Fixpoint retry_loop {A} (more : nat) (retry_on_result : A -> bool)
  (wait_fixed : nat) (fn : M A) : M A :=
  fun env tr =>
    let (attempt, tr') := fn env tr in
    let rejected :=
      match attempt with
      | Ok a => retry_on_result a
      | Raise _ => true
      end in
    if rejected then
      match more with
      | O =>
          match attempt with
          | Ok _ => (Raise RetryError, tr')
          | Raise e => (Raise e, tr')
          end
      | S more' =>
          (emit (sleep wait_fixed) ;;;
           retry_loop more' retry_on_result wait_fixed fn) env tr'
      end
    else (attempt, tr').

Definition retrying {A} (stop_max_attempt_number : nat) (retry_on_result : A -> bool)
  (wait_fixed : nat) (fn : M A) : M A :=
  retry_loop (stop_max_attempt_number - 1) retry_on_result wait_fixed fn.

(** Modelled from the spec: the convergence poller
    [poll(target, read-function, max-attempts, fixed-interval)], which the
    driver obtains from the decorator with
    [retry_on_result=lambda state: state != target]. *)
Definition poll_until (target : string) (attempts wait : nat) (read : M string)
  : M string :=
  retrying attempts (fun state => negb (state =? target)) wait read.

(** [task.driver.power.get_power_state(task)] *)
Definition read_power_state : M string :=
  call_returning get_power_state power_state.

(** [_wait_until_powered_off] of [reboot_and_finish_deploy] *)
Definition _wait_until_powered_off : M string :=
  conf <- config ;;
  let wait := (post_deploy_get_power_state_retry_interval conf * 1000)%nat in
  let attempts := (post_deploy_get_power_state_retries conf + 1)%nat in
  poll_until states.POWER_OFF attempts wait read_power_state.

(** [oslo_utils.strutils.bool_from_string(subject)], non-strict: a boolean
    is itself, otherwise the text of the subject, stripped and lower-cased,
    is looked up among the true strings. *)
Definition is_space (c : ascii) : bool :=
  let n := nat_of_ascii c in (n =? 32)%nat || ((9 <=? n)%nat && (n <=? 13)%nat).

Fixpoint lstrip (s : string) : string :=
  match s with
  | EmptyString => EmptyString
  | String c s' => if is_space c then lstrip s' else s
  end.

Fixpoint rstrip (s : string) : string :=
  match s with
  | EmptyString => EmptyString
  | String c s' =>
      let r := rstrip s' in
      if (r =? "") && is_space c then EmptyString else String c r
  end.

Definition TRUE_STRINGS : list string := ["1"; "t"; "true"; "on"; "y"; "yes"].

Definition bool_from_string (subject : value) : bool :=
  match subject with
  | VBool b => b
  | VStr s => existsb (String.eqb (lower (rstrip (lstrip s)))) TRUE_STRINGS
  | VInt z => (z =? 1)%Z
  | _ => false
  end.

Definition oob_power_off (n : node) : bool :=
  bool_from_string (Dict.get_default (driver_info n) "deploy_forces_oob_reboot"
                      (VBool false)).

(** The in-band shutdown of [reboot_and_finish_deploy] (the body of its
    inner [try]). *)
Definition soft_power_off (n : node) : M unit :=
  node_address <- _get_node_ip n ;;
  parsed <- lift (_parse_ansible_driver_info n "shutdown") ;;
  match parsed with
  | (playbook, user, key) =>
      let node_list := [(uuid n, node_address, user, extra n)] in
      let extra_vars := _prepare_extra_vars node_list [] in
      _run_playbook playbook extra_vars key [] [] ;;;
      _wait_until_powered_off ;;;
      ret tt
  end.

(** The warning of [reboot_and_finish_deploy] for a failed in-band
    shutdown. *)
Definition soft_power_off_warning (conf : Conf) (n : node) (e : exn) : message :=
  let wait := (post_deploy_get_power_state_retry_interval conf * 1000)%nat in
  let attempts := (post_deploy_get_power_state_retries conf + 1)%nat in
  MsgSoftPowerOffFailed (uuid n) (Z.of_nat (wait * (attempts - 1)) / 1000) e.

(** The end of the outer [try] of [reboot_and_finish_deploy], once power
    is settled. *)
Definition release_and_power_on : M unit :=
  call remove_provisioning_network ;;;
  call configure_tenant_networks ;;;
  call (node_power_action states.POWER_ON).

(** The body of the outer [try] of [reboot_and_finish_deploy]. *)
Definition power_off_and_on (n : node) : M unit :=
  conf <- config ;;
  (if negb (oob_power_off n) then
     try_except (soft_power_off n)
       (fun e =>
          emit (LOG_warning (soft_power_off_warning conf n e)) ;;;
          (* flush is a part of deploy playbook so if it finished
             successfully we can safely power off the node out-of-band *)
          call (node_power_action states.POWER_OFF))
   else call (node_power_action states.POWER_OFF)) ;;;
  release_and_power_on.

(** [agent_base.log_and_raise_deployment_error]: reports the message and
    raises [InstanceDeployFailure]. *)
Definition raise_deployment_error {A} (n : node) (e : exn) : M A :=
  emit (log_and_raise_deployment_error (MsgErrorRebooting (uuid n) e)) ;;;
  raise (InstanceDeployFailure (ReasonRebootError (uuid n) e)).

(** [AnsibleDeploy.reboot_and_finish_deploy] *)
Definition reboot_and_finish_deploy (n : node) : M unit :=
  try_except (power_off_and_on n) (fun e => raise_deployment_error n e) ;;;
  call (process_event "done").

(** [AnsibleDeploy.reboot_to_instance] *)
Definition reboot_to_instance (n : node) : M unit :=
  call (node_set_boot_device "disk" true) ;;;
  reboot_and_finish_deploy n ;;;
  call clean_up_ramdisk.

(** [try: m except Exception as e: h e else: k] *)
Definition try_except_else {A B} (m : M A) (h : exn -> M B) (k : A -> M B) : M B :=
  fun env tr =>
    match m env tr with
    | (Ok a, tr') => k a env tr'
    | (Raise e, tr') => h e env tr'
    end.

(** [AnsibleDeploy.deploy]; [None] is Python's [None]. *)
Definition deploy (n : node) : M (option string) :=
  conf <- config ;;
  call (node_power_action states.REBOOT) ;;;
  if use_ramdisk_callback conf then ret (Some states.DEPLOYWAIT)
  else
    ip_addr <- _get_node_ip_dhcp n ;;
    try_except_else (_ansible_deploy n ip_addr)
      (fun e =>
         let error := MsgDeployFailed (uuid n) e in
         emit (LOG_exception error) ;;;
         call (set_failed_state error false) ;;;
         ret None)
      (fun _ =>
         reboot_to_instance n ;;;
         ret (Some states.DEPLOYDONE)).

(** ** Reference library functions and example worlds *)

(** Reference versions of the library functions, used to run the model on
    concrete nodes. *)
Module Reference.

(** [capabilities.get('disk_label')] of the instance capabilities. *)
Definition disk_label (n : node) : value :=
  match Dict.get_default (instance_info n) "capabilities" VNone with
  | VDict caps => Dict.get_default caps "disk_label" VNone
  | _ => VNone
  end.

(** A stand-in for the library's hint parser on hints that are written
    with their operator, in lower case and with nothing to quote: those it
    returns as they are.  (The library also lower-cases and quotes the text
    of a string hint and gives a hint without operator the [==] or [s==]
    sigil, which this stand-in does not.) *)
Definition parse_hints (root_device : value) : string + dict :=
  match root_device with
  | VDict d => inr d
  | _ => inl "root device hints must be a dictionary"
  end.

(** Decimal digits with an optional sign. *)
Fixpoint digits (s : string) (acc : Z) : option Z :=
  match s with
  | EmptyString => Some acc
  | String c s' =>
      if is_digit c
      then digits s' (10 * acc + Z.of_nat (nat_of_ascii c - 48))%Z
      else None
  end.

Definition parse_int (s : string) : option Z :=
  match rstrip (lstrip s) with
  | EmptyString => None
  | String "-" (String _ _ as ds) => option_map Z.opp (digits ds 0)
  | String "+" (String _ _ as ds) => digits ds 0
  | ds => digits ds 0
  end.

Definition hex_digit (c : ascii) : option nat :=
  let n := nat_of_ascii c in
  if is_digit c then Some (n - 48)
  else if (65 <=? n)%nat && (n <=? 70)%nat then Some (n - 55)
  else if (97 <=? n)%nat && (n <=? 102)%nat then Some (n - 87)
  else None.

(** [%XX] becomes the byte [XX]; anything else is kept. *)
Fixpoint percent_decode (s : string) : string :=
  match s with
  | String "%" (String a (String b s' as t) as u) =>
      match hex_digit a, hex_digit b with
      | Some x, Some y => String (ascii_of_nat (16 * x + y)) (percent_decode s')
      | _, _ => String "%" (percent_decode u)
      end
  | String c s' => String c (percent_decode s')
  | EmptyString => EmptyString
  end.

Definition lib (document : outcome value) : Lib :=
  {| get_disk_label := disk_label;
     irlib_parse_root_device_hints := parse_hints;
     int_of_str := parse_int;
     unquote := percent_decode;
     yaml_safe_load_file := fun _ => document |}.

Definition conf (callback : bool) : Conf :=
  {| ansible_extra_args := [];
     verbosity := None;
     ansible_playbook_script := "ansible-playbook";
     playbooks_path := "/etc/ironic/playbooks";
     config_file_path := "/etc/ironic/playbooks/ansible.cfg";
     post_deploy_get_power_state_retries := 6;
     post_deploy_get_power_state_retry_interval := 5;
     extra_memory := 10;
     use_ramdisk_callback := callback;
     debug := false;
     tempdir := "/tmp" |}.

(** A bare node: no driver options, no recorded callback. *)
Definition bare_node : node :=
  {| uuid := "node-1";
     driver_info := [];
     driver_internal_info := [];
     instance_info := [];
     properties := [];
     extra := VDict [] |}.

End Reference.

(** ** Example worlds *)

(** The number of power-state reads made so far. *)
Definition is_read (ev : event) : bool :=
  match ev with
  | get_power_state => true
  | _ => false
  end.

Definition reads (tr : trace) : nat := List.length (filter is_read tr).

(** The number of sleeps made so far. *)
Definition is_sleep (ev : event) : bool :=
  match ev with
  | sleep _ => true
  | _ => false
  end.

Definition sleeps (tr : trace) : nat := List.length (filter is_sleep tr).

(** The command lines run so far. *)
Definition executed (tr : trace) : list (list arg) :=
  flat_map (fun ev => match ev with execute args => [args] | _ => [] end) tr.

Module World.

(** A world in which [failing] tells which calls raise, DHCP reports
    [addrs], the [k]-th power-state read (from 0) returns [power k], and
    every image is [size] bytes. *)
Definition make (conf : Conf) (lib : Lib) (failing : trace -> event -> option exn)
  (addrs : list string) (power : nat -> string) (size : Z) : Env :=
  {| CONF := conf;
     LIB := lib;
     raises := failing;
     ip_addresses := fun _ => addrs;
     image_size := fun _ _ => size;
     power_state := fun tr => power (reads tr);
     output := fun _ _ => ("", "") |}.

Definition no_failure : trace -> event -> option exn := fun _ _ => None.

(** The node powers off at once. *)
Definition off_at_once : nat -> string := fun _ => states.POWER_OFF.

(** The node is seen powered off from its [k]-th read on. *)
Definition off_after (k : nat) : nat -> string :=
  fun i => if (i <? k)%nat then states.POWER_ON else states.POWER_OFF.

(** Every run of the external tool exits with an error. *)
Definition tool_fails : trace -> event -> option exn :=
  fun _ ev =>
    match ev with
    | execute _ => Some (ProcessExecutionError "exit code 2")
    | _ => None
    end.

(** Powering the node on fails. *)
Definition power_on_fails : trace -> event -> option exn :=
  fun _ ev =>
    match ev with
    | node_power_action "power on" => Some (CollaboratorError "IPMI timeout")
    | _ => None
    end.

(** A synchronous-mode world with the given DHCP leases. *)
Definition sync (addrs : list string) : Env :=
  make (Reference.conf false) (Reference.lib (Ok (VList []))) no_failure
    addrs off_at_once 1048576.

(** A callback-mode world. *)
Definition callback : Env :=
  make (Reference.conf true) (Reference.lib (Ok (VList []))) no_failure
    [] off_at_once 1048576.

(** A synchronous-mode world with one lease in which [failing] tells
    which calls raise and the node powers off at its [k]-th read. *)
Definition sync_with (failing : trace -> event -> option exn) (k : nat) : Env :=
  make (Reference.conf false) (Reference.lib (Ok (VList []))) failing
    ["10.0.0.5"] (off_after k) 1048576.

(** A node to deploy a whole-disk image on. *)
Definition whole_disk_node : node :=
  {| uuid := "node-1";
     driver_info := [("ansible_deploy_key_file", VStr "/etc/ironic/id_rsa")];
     driver_internal_info := [("is_whole_disk_image", VBool true)];
     instance_info :=
       [("image_source", VStr "glance://image"); ("image_checksum", VStr "abc123");
        ("root_gb", VInt 10)];
     properties := [];
     extra := VDict [] |}.

End World.

(** A character that can stand in a host name or IPv4 address: none of the
    separators of a URL and no square bracket. *)
Definition is_host_char (c : ascii) : bool := negb (has_char c ":/?#[]").

(** A field of a partition descriptor. *)
Definition partition_field (p : value) (k : string) : option value :=
  match p with
  | VDict d => Dict.get d k
  | _ => None
  end.

(** The boot-loader partition a GPT plan starts with. *)
Definition bios_grub_partition : value :=
  VDict [("name", VStr "bios"); ("size", VInt 1); ("unit", VStr "MiB");
         ("flags", VDict [("bios_grub", VStr "yes")])].

(** The keys the plan reads with [info[k]], in the order it reads them:
    the ephemeral format and the preserve flag only when [ephemeral_mb] is
    truthy. *)
Definition plan_keys (n : node) : list string :=
  if truthy (Dict.get_default (instance_info n) "ephemeral_mb" VNone)
  then ["ephemeral_mb"; "ephemeral_format"; "preserve_ephemeral"; "swap_mb"; "root_mb"]
  else ["ephemeral_mb"; "swap_mb"; "root_mb"].

(** The first of [keys] that [info] lacks. *)
Definition first_missing (info : dict) (keys : list string) : option string :=
  find (fun k => negb (Dict.contains info k)) keys.

(** A node to deploy a partition image on, on a GPT disk. *)
Definition gpt_node : node :=
  {| uuid := "node-3";
     driver_info := [];
     driver_internal_info := [];
     instance_info :=
       [("capabilities", VDict [("disk_label", VStr "gpt")]);
        ("ephemeral_mb", VInt 0); ("swap_mb", VInt 512); ("root_mb", VInt 10240)];
     properties := [];
     extra := VDict [] |}.

(** A list of keys without repetition, as the keys of a dictionary are. *)
Fixpoint distinct (l : list string) : bool :=
  match l with
  | [] => true
  | x :: l' => negb (existsb (String.eqb x) l') && distinct l'
  end.


(** A numeric-equality hint whose payload [int] cannot read. *)
Definition bad_number (lib : Lib) (kv : string * value) : bool :=
  match snd kv with
  | VStr s =>
      startswith "== " s
      && match int_of_str lib (drop 3 s) with Some _ => false | None => true end
  | _ => false
  end.







(** ** Clean-step documents *)

(** The file [_get_clean_steps] reads, when the configured name is a
    string. *)
Definition clean_steps_path (conf : Conf) (n : node) : option string :=
  match Dict.get_default (driver_info n) "ansible_clean_steps_config"
          (VStr DEFAULT_CLEAN_STEPS) with
  | VStr clean_steps_file => Some (os_path_join (playbooks_path conf) clean_steps_file)
  | _ => None
  end.

(** The clean-step file of node [n] holds the document [doc]. *)
Definition holds_document (conf : Conf) (lib : Lib) (n : node) (doc : value) : Prop :=
  exists path, clean_steps_path conf n = Some path
               /\ yaml_safe_load_file lib path = Ok doc.

(** The declared name, interface and arguments of a step. *)
Definition step_name (d : dict) : value := Dict.get_default d "name" VNone.

Definition declared_args (d : dict) : dict :=
  match Dict.get_default d "args" (VDict []) with
  | VDict a => a
  | _ => []
  end.

(** A step whose arguments, when declared, are a mapping of mappings. *)
Definition is_mapping (v : value) : bool :=
  match v with
  | VDict _ => true
  | _ => false
  end.

Definition typed_step (d : dict) : bool :=
  is_mapping (Dict.get_default d "args" (VDict []))
  && forallb (fun kv => is_mapping (snd kv)) (declared_args d).

(** The three defects of a step declaration. *)
Definition missing_name (d : dict) : bool := negb (truthy (step_name d)).

Definition missing_interface (d : dict) : bool := negb (Dict.contains d "interface").

Definition lacks_required_value (arg : value) : bool :=
  match arg with
  | VDict a =>
      truthy (Dict.get_default a "required" (VBool false))
      && negb (Dict.contains a "value")
  | _ => false
  end.

Definition missing_value (d : dict) : bool :=
  existsb (fun kv => lacks_required_value (snd kv)) (declared_args d).

Definition defective (d : dict) : bool :=
  missing_name d || missing_interface d || missing_value d.

(** The pairs reported for one step: [(undefined, name)] alone for a step
    without a name, else its missing interface and every required argument
    without a value. *)
Definition reported (d : dict) : list (value * string) :=
  if missing_name d then [(VStr "undefined", "name")]
  else
    (if missing_interface d then [(step_name d, "interface")] else [])
    ++ flat_map (fun kv =>
                   if lacks_required_value (snd kv)
                   then [(step_name d, (fst kv ++ ".value")%string)]
                   else [])
         (declared_args d).

(** Example documents. *)
Module Documents.

(** One step with no name, no interface and a required argument without
    a value. *)
Definition nameless : value :=
  VList [VDict [("args", VDict [("tags", VDict [("required", VBool true)])])]].

(** Two complete steps with the same name. *)
Definition twins : value :=
  VList [VDict [("name", VStr "erase_devices"); ("interface", VStr "deploy")];
         VDict [("name", VStr "erase_devices"); ("interface", VStr "raid")]].


(** A step without an interface and with a required argument without a
    value, and a step without a name. *)
Definition two_defects : value :=
  VList [VDict [("name", VStr "wipe");
                ("args", VDict [("tags", VDict [("required", VBool true)])])];
         VDict [("interface", VStr "deploy")]].

(** Two well-formed steps of different interfaces. *)
Definition sound : value :=
  VList [VDict [("name", VStr "erase_devices"); ("interface", VStr "deploy");
                ("priority", VInt 10);
                ("args", VDict [("tags", VDict [("required", VBool true);
                                                ("value", VList [VStr "zap"])]);
                                ("passes", VDict [("description", VStr "count")])])];
         VDict [("name", VStr "update_firmware"); ("interface", VStr "management")]].

End Documents.


(** The interface a built step carries. *)
Definition has_interface (i : string) (step : value) : bool :=
  match step with
  | VDict d => is_str (Dict.get_default d "interface" VNone) i
  | _ => false
  end.

(** What the step builder can raise are Python's own errors. *)
Definition python_error (e : exn) : Prop :=
  e = AttributeError \/ e = TypeError \/ exists k, e = KeyError k.

(** The mapping behind a step declaration or a built step. *)
Definition declaration (params : value) : dict :=
  match params with
  | VDict d => d
  | _ => []
  end.

(** A declaration passes the interface filter. *)
Definition selected (interface : option string) (params : value) : bool :=
  negb (filtered_out interface
          (Dict.get_default (declaration params) "interface" VNone)).


(** The resolved arguments of a built step. *)
Definition step_args (step : value) : dict :=
  match Dict.get_default (declaration step) "args" VNone with
  | VDict a => a
  | _ => []
  end.

(** The value an argument declares, [None] when it declares none. *)
Definition declared_value (arg_info : value) : value :=
  Dict.get_default (declaration arg_info) "value" VNone.

(** The argument names of a declaration are distinct, as the keys of a
    mapping are. *)
Definition distinct_args (params : value) : bool :=
  distinct (Dict.keys (declared_args (declaration params))).

(** A declaration that passes the validation. *)
Definition sound (params : value) : Prop :=
  exists d, params = VDict d /\ typed_step d = true /\ defective d = false.

(** What a built step owes to its declaration. *)
Definition resolves (params step : value) : Prop :=
  Dict.get (declaration step) "abortable" = Some (VBool false)
  /\ Dict.keys (step_args step) = Dict.keys (declared_args (declaration params))
  /\ forall arg arg_info,
      In (arg, arg_info) (declared_args (declaration params)) ->
      Dict.get (step_args step) arg = Some (declared_value arg_info)
      /\ (Dict.contains (declaration arg_info) "value" = false ->
          declared_value arg_info = VNone
          /\ truthy (Dict.get_default (declaration arg_info) "required" (VBool false))
             = false).

(** The calls of [k] unsuccessful attempts of a poll: a read and a sleep
    each. *)
Fixpoint failed_attempts (k wait : nat) : trace :=
  match k with
  | O => []
  | S k' => get_power_state :: sleep wait :: failed_attempts k' wait
  end.

(** A world whose power-state reads never raise. *)
Definition reads_never_raise (env : Env) : Prop :=
  forall tr, raises env tr get_power_state = None.

(** The forced out-of-band power-off followed by the end of the block. *)
Definition forced_power_off_then_on : M unit :=
  call (node_power_action states.POWER_OFF) ;;;
  release_and_power_on.


(** A computation that runs no command: whatever it does, the calls it
    adds to the trace include no [execute]. *)
Definition quiet {A} (m : M A) : Prop :=
  forall env tr,
    exists calls, snd (m env tr) = tr ++ calls /\ executed calls = [].

(** A [--skip-tags] argument of a command line. *)
Definition is_skip_tags (a : arg) : bool :=
  match a with
  | Arg s => startswith "--skip-tags=" s
  | _ => false
  end.

(** [node.driver_internal_info.get('is_whole_disk_image')] is true. *)
Definition whole_disk_image (n : node) : bool :=
  truthy (Dict.get_default (driver_internal_info n) "is_whole_disk_image" VNone).

(** The variables [_ansible_deploy] hands to the playbook: those of
    [_prepare_variables], with the partition plan unless the image is a
    whole-disk image. *)
Definition deploy_variables (lib : Lib) (n : node) (variables : dict) : outcome dict :=
  if whole_disk_image n then Ok variables
  else
    (let? partition_info := _parse_partitioning_info lib n in
     Ok (Dict.update variables partition_info))%outcome.

(** ** Further notions used by the properties *)

(** The host descriptor [_prepare_extra_vars] builds for one host. *)
Definition host_descriptor (h : string * string * value * value) : value :=
  match h with
  | (node_uuid, ip, user, extra) =>
      VDict [("name", VStr node_uuid); ("ip", VStr ip);
             ("user", user); ("extra", extra)]
  end.

(** The first partition of a plan with the given name. *)
Definition find_partition (name : string) (partitions : list value) : option value :=
  find (fun p => match partition_field p "name" with
                 | Some v => is_str v name
                 | None => false
                 end) partitions.

(** The priority [_get_clean_steps] gives a declaration: the override for
    its name unless that is absent or [None], else the declared priority,
    else zero. *)
Definition resolved_priority (override : dict) (d : dict) : value :=
  match lookup_name override (step_name d) with
  | Some VNone | None => Dict.get_default d "priority" (VInt 0)
  | Some v => v
  end.

(** A built step carries the name and interface of its declaration and the
    resolved priority. *)
Definition describes (override : dict) (params step : value) : Prop :=
  Dict.get (declaration step) "step" = Dict.get (declaration params) "name"
  /\ Dict.get (declaration step) "interface"
     = Dict.get (declaration params) "interface"
  /\ Dict.get (declaration step) "priority"
     = Some (resolved_priority override (declaration params)).




(** [AnsibleDeploy.get_clean_steps]; the two priorities are the options
    [erase_devices_priority] and [erase_devices_metadata_priority] of the
    [deploy] group ([None] when unset). *)
Definition get_clean_steps (conf : Conf) (lib : Lib) (n : node)
  (erase_devices_priority erase_devices_metadata_priority : value)
  : outcome (list value) :=
  let new_priorities :=
    [("erase_devices", erase_devices_priority);
     ("erase_devices_metadata", erase_devices_metadata_priority)] in
  _get_clean_steps conf lib n (Some "deploy") (Some new_priorities).

(** A computation whose calls all satisfy [P]. *)
Definition only {A} (P : event -> bool) (m : M A) : Prop :=
  forall env tr,
    exists calls, snd (m env tr) = tr ++ calls /\ forallb P calls = true.

(** Kinds of calls. *)
Definition is_execute (ev : event) : bool :=
  match ev with
  | execute _ => true
  | _ => false
  end.

Definition is_write_file (ev : event) : bool :=
  match ev with
  | write_file _ _ => true
  | _ => false
  end.

Definition is_download_size (ev : event) : bool :=
  match ev with
  | download_size _ => true
  | _ => false
  end.

Definition is_lookup (ev : event) : bool :=
  match ev with
  | get_ip_addresses => true
  | _ => false
  end.

(** The calls of a poll: reads, and sleeps of the given length. *)
Definition is_poll_call (wait : nat) (ev : event) : bool :=
  match ev with
  | get_power_state => true
  | sleep ms => (ms =? wait)%nat
  | _ => false
  end.

(** The calls the soft path can make. *)
Definition is_soft_call (ev : event) : bool :=
  match ev with
  | get_ip_addresses | execute _ | get_power_state | sleep _ => true
  | _ => false
  end.

(** The calls left to [reboot_and_finish_deploy] when the out-of-band
    power-off is forced. *)
Definition is_out_of_band_call (ev : event) : bool :=
  match ev with
  | node_power_action _ | remove_provisioning_network | configure_tenant_networks
  | log_and_raise_deployment_error _ | process_event _ => true
  | _ => false
  end.

(** The checksum [_prepare_variables] leaves in the image variables for a
    checksum [v] that does not make it fail: a non-empty string with no
    [<algo>:] prefix gets the prefix [md5:]. *)
Definition normalized_checksum (v : value) : value :=
  match v with
  | VStr c =>
      if negb (c =? "") && negb (has_char ":" c)
      then VStr ("md5:" ++ c)%string
      else v
  | _ => v
  end.

(** Whether the config drive of a node is given by URL ([Some true]), as
    content to be written to a file ([Some false]), or not at all. *)
Definition configdrive_is_url (n : node) : option bool :=
  match Dict.get_default (instance_info n) "configdrive" VNone with
  | VStr c =>
      if c =? "" then None
      else
        match urlparse c with
        | Ok parsed => Some ((scheme parsed =? "http") || (scheme parsed =? "https"))
        | Raise _ => None
        end
  | _ => None
  end.

(** The [configdrive] variable of a node, if any. *)
Definition configdrive_variable (conf : Conf) (n : node) : option value :=
  match configdrive_is_url n with
  | Some true =>
      Some (VDict [("type", VStr "url");
                   ("location", Dict.get_default (instance_info n) "configdrive" VNone)])
  | Some false =>
      Some (VDict [("type", VStr "file");
                   ("location", VStr (_get_configdrive_path conf (uuid n)))])
  | None => None
  end.

(** The files [_prepare_variables] writes for a node. *)
Definition configdrive_writes (conf : Conf) (n : node) : trace :=
  match configdrive_is_url n with
  | Some false =>
      [write_file (_get_configdrive_path conf (uuid n))
         (Dict.get_default (instance_info n) "configdrive" VNone)]
  | _ => []
  end.

(** [notags] of [_ansible_deploy]. *)
Definition deploy_notags (conf : Conf) : list string :=
  if use_ramdisk_callback conf then ["wait"] else [].

(** ** The clean-step document as objects *)

(** [yaml.safe_load] returns objects, and a mapping that the file writes
    once and refers to again through an alias ([&a] and [*a]) is one dict
    reached from two places.  [_get_clean_steps] changes the dicts it is
    given ([arg_info.pop]), so what a step shows depends on what was done to
    the dicts it shares.  Here every dict lives in a store and is held by its
    address; scalars and sequences, which the code never changes, are held
    by value. *)
Definition address := nat.

Inductive object : Type :=
| ONone
| OBool (b : bool)
| OInt (z : Z)
| OStr (s : string)
| OList (items : list object)
| ORef (a : address).

Definition mapping := list (string * object).

Definition store := list mapping.

(** Operations on the dict at an address. *)
Module Mapping.

(** [d.get(k)] *)
Fixpoint get (m : mapping) (k : string) : option object :=
  match m with
  | [] => None
  | (k', v) :: m' => if k' =? k then Some v else get m' k
  end.

(** [d.get(k, default)] *)
Definition get_default (m : mapping) (k : string) (default : object) : object :=
  match get m k with Some v => v | None => default end.

(** [d[k] = v] *)
Fixpoint set (m : mapping) (k : string) (v : object) : mapping :=
  match m with
  | [] => [(k, v)]
  | (k', v') :: m' => if k' =? k then (k', v) :: m' else (k', v') :: set m' k v
  end.

(** The dict left by [d.pop(k, None)]. *)
Fixpoint remove (m : mapping) (k : string) : mapping :=
  match m with
  | [] => []
  | (k', v') :: m' => if k' =? k then m' else (k', v') :: remove m' k
  end.

End Mapping.

(** The dict a store holds at an address. *)
Definition fetch (h : store) (a : address) : option mapping := nth_error h a.

(** The store after the dict at [a] has become [m]. *)
Fixpoint assign (h : store) (a : address) (m : mapping) : store :=
  match h, a with
  | [], _ => []
  | _ :: h', O => m :: h'
  | m' :: h', S a' => m' :: assign h' a' m
  end.

(** A new dict. *)
Definition alloc (h : store) (m : mapping) : object * store :=
  (ORef (List.length h), h ++ [m]).

(** The tree an object prints as, following addresses [fuel] deep. *)
Fixpoint read (fuel : nat) (h : store) : object -> value :=
  fix go (o : object) : value :=
    match o with
    | ONone => VNone
    | OBool b => VBool b
    | OInt z => VInt z
    | OStr s => VStr s
    | OList items => VList (map go items)
    | ORef a =>
        match fuel with
        | O => VDict []
        | S fuel' =>
            match fetch h a with
            | Some m => VDict (map (fun kv => (fst kv, read fuel' h (snd kv))) m)
            | None => VDict []
            end
        end
    end.

(** The document as [_validate_clean_steps] sees it.  The validation only
    reads, four dicts deep at most (step, arguments, argument, the value of
    [required]), so it sees the tree the objects print as. *)
Definition snapshot (h : store) (o : object) : value :=
  read (4 + List.length h) h o.

(** The receiver of [o.get(...)], [o.items()] or [o.pop(...)]. *)
Definition as_mapping (h : store) (o : object) : outcome (address * mapping) :=
  match o with
  | ORef a =>
      match fetch h a with
      | Some m => Ok (a, m)
      | None => Raise AttributeError
      end
  | _ => Raise AttributeError
  end.

(** [o[k]] for a string key [k]. *)
Definition subscript_object (h : store) (o : object) (k : string) : outcome object :=
  match o with
  | ORef a =>
      match fetch h a with
      | Some m =>
          match Mapping.get m k with
          | Some v => Ok v
          | None => Raise (KeyError k)
          end
      | None => Raise TypeError
      end
  | _ => Raise TypeError
  end.

(** [for x in o] *)
Definition iterate_object (h : store) (o : object) : outcome (list object) :=
  match o with
  | OList l => Ok l
  | ORef a =>
      match fetch h a with
      | Some m => Ok (map (fun kv => OStr (fst kv)) m)
      | None => Raise TypeError
      end
  | OStr s => Ok (map (fun c => OStr (String c EmptyString)) (list_ascii_of_string s))
  | _ => Raise TypeError
  end.

(** [arg_info.pop('value', None)]: the value goes to the caller and the
    dict at the address of [arg_info] is left without its ['value'], for
    everyone who holds it. *)
Definition pop_value (h : store) (arg_info : object) : outcome (object * store) :=
  (let? (a, m) := as_mapping h arg_info in
   Ok (Mapping.get_default m "value" ONone,
       assign h a (Mapping.remove m "value")))%outcome.

(** The loop of [_get_clean_steps] over [argsinfo.items()], the items
    being those the dict has when the loop starts (the list Python 2
    makes; the view of Python 3 differs from it only on a dict that is its
    own argument description). *)
Fixpoint pop_values_shared (h : store) (items : mapping) (args : mapping)
  : outcome (mapping * store) :=
  match items with
  | [] => Ok (args, h)
  | (arg, arg_info) :: items' =>
      (let? (v, h) := pop_value h arg_info in
       pop_values_shared h items' (Mapping.set args arg v))%outcome
  end.

(** [override.get(name)] on a dict with string keys. *)
Definition lookup_name_object (override : mapping) (name : object) : option object :=
  match name with
  | OStr s => Mapping.get override s
  | _ => None
  end.

(** One step dictionary of [_get_clean_steps], from the declaration
    [params] of a step that passed the interface filter.  The step holds
    the declared arguments mapping itself under ['argsinfo']. *)
Definition make_step_shared (h : store) (params name clean_if : object)
  (override : mapping) : outcome (object * store) :=
  (let? (_, p) := as_mapping h params in
   let new_priority :=
     match lookup_name_object override name with Some v => v | None => ONone end in
   let priority :=
     match new_priority with
     | ONone => Mapping.get_default p "priority" (OInt 0)
     | _ => new_priority
     end in
   let (argsinfo, h) :=
     match Mapping.get p "args" with
     | Some argsinfo => (argsinfo, h)
     | None => alloc h []
     end in
   let? (_, items) := as_mapping h argsinfo in
   let? (args, h) := pop_values_shared h items [] in
   let (args, h) := alloc h args in
   Ok (alloc h [("interface", clean_if); ("step", name); ("priority", priority);
                ("abortable", OBool false); ("argsinfo", argsinfo);
                ("args", args)]))%outcome.

(** [interface is not None and interface != clean_if] *)
Definition filtered_out_object (interface : option string) (clean_if : object) : bool :=
  match interface with
  | Some i => match clean_if with OStr s => negb (s =? i) | _ => true end
  | None => false
  end.

(** The loop of [_get_clean_steps] over [internal_steps]. *)
Fixpoint build_steps_shared (h : store) (internal_steps : list object)
  (interface : option string) (override : mapping) (steps : list object)
  : outcome (list object * store) :=
  match internal_steps with
  | [] => Ok (steps, h)
  | params :: rest =>
      (let? name := subscript_object h params "name" in
       let? clean_if := subscript_object h params "interface" in
       if filtered_out_object interface clean_if then
         build_steps_shared h rest interface override steps
       else
         let? (step, h) := make_step_shared h params name clean_if override in
         build_steps_shared h rest interface override (steps ++ [step]))%outcome
  end.

(** [_get_clean_steps] from the loaded document on: the validation, then
    the loop.  The result is the list of steps and the store they are to be
    read in. *)
Definition clean_steps_of_objects (h : store) (internal_steps : object)
  (node_uuid : string) (interface : option string)
  (override_priorities : option mapping) : outcome (list object * store) :=
  (let? _ := _validate_clean_steps (snapshot h internal_steps) node_uuid in
   let override :=
     match override_priorities with Some d => d | None => [] end in
   let? items := iterate_object h internal_steps in
   build_steps_shared h items interface override [])%outcome.

(** [_get_clean_steps], with [yaml.safe_load] giving the objects of the
    document and the store they live in. *)
Definition _get_clean_steps_shared (conf : Conf)
  (safe_load_file : string -> outcome (store * object)) (n : node)
  (interface : option string) (override_priorities : option mapping)
  : outcome (list object * store) :=
  match Dict.get_default (driver_info n) "ansible_clean_steps_config"
          (VStr DEFAULT_CLEAN_STEPS) with
  | VStr clean_steps_file =>
      let path := os_path_join (playbooks_path conf) clean_steps_file in
      match safe_load_file path with
      | Raise e => Raise (NodeCleaningFailure (uuid n) (FailedToLoad path e))
      | Ok (h, internal_steps) =>
          clean_steps_of_objects h internal_steps (uuid n) interface override_priorities
      end
  | _ => Raise TypeError
  end.

(** The resolved value of an argument of a built step. *)
Definition resolved_argument (h : store) (step : object) (arg : string) : option object :=
  match subscript_object h step "args" with
  | Ok args =>
      match subscript_object h args arg with
      | Ok v => Some v
      | Raise _ => None
      end
  | Raise _ => None
  end.

Module Aliased.

(** Two steps whose arguments are one mapping, written once and referred
    to through an alias:
<<
    - name: build_raid
      interface: raid
      args: &wipe
        tags: {required: true, value: [zap]}
    - name: erase_devices
      interface: deploy
      args: *wipe
>> *)
Definition heap : store :=
  [ [("required", OBool true); ("value", OList [OStr "zap"])];
    [("tags", ORef 0)];
    [("name", OStr "build_raid"); ("interface", OStr "raid"); ("args", ORef 1)];
    [("name", OStr "erase_devices"); ("interface", OStr "deploy"); ("args", ORef 1)] ].

Definition document : object := OList [ORef 2; ORef 3].

(** The loader of a world whose clean-step file is this document. *)
Definition safe_load_file (path : string) : outcome (store * object) :=
  Ok (heap, document).

End Aliased.

(** The value a step declaration gives an argument in the loaded
    document. *)
Definition declared_argument (h : store) (params : object) (arg : string)
  : option object :=
  match subscript_object h params "args" with
  | Ok args =>
      match subscript_object h args arg with
      | Ok arg_info =>
          match subscript_object h arg_info "value" with
          | Ok v => Some v
          | Raise _ => None
          end
      | Raise _ => None
      end
  | Raise _ => None
  end.

Module Separate.

(** The document [Documents.sound] as objects, every mapping written
    out where it is used. *)
Definition heap : store :=
  [ [("required", OBool true); ("value", OList [OStr "zap"])];
    [("description", OStr "count")];
    [("tags", ORef 0); ("passes", ORef 1)];
    [("name", OStr "erase_devices"); ("interface", OStr "deploy");
     ("priority", OInt 10); ("args", ORef 2)];
    [("name", OStr "update_firmware"); ("interface", OStr "management")] ].

Definition document : object := OList [ORef 3; ORef 4].

End Separate.

(** The steps a load returns, as the trees they print as. *)
Definition printed (result : outcome (list object * store)) : outcome (list value) :=
  match result with
  | Ok (steps, h) => Ok (map (snapshot h) steps)
  | Raise e => Raise e
  end.

(** ** Documents without shared argument descriptions *)

(** The items of the arguments mapping of a step declaration. *)
Definition declared_items (h : store) (params : object) : mapping :=
  match as_mapping h params with
  | Ok (_, p) =>
      match Mapping.get p "args" with
      | Some argsinfo =>
          match as_mapping h argsinfo with
          | Ok (_, items) => items
          | Raise _ => []
          end
      | None => []
      end
  | Raise _ => []
  end.







(** The value an argument description declares, [None] when it declares
    none. *)
Definition declared_value_object (h : store) (arg_info : object) : object :=
  match as_mapping h arg_info with
  | Ok (_, m) => Mapping.get_default m "value" ONone
  | Raise _ => ONone
  end.



(** The step built for [params]: two new dicts of [h'], the step and its
    resolved arguments. *)
Definition built (h h' : store) (params step : object) : Prop :=
  exists s g clean_if name priority argsinfo,
    step = ORef s
    /\ (List.length h <= s)%nat
    /\ (List.length h <= g)%nat
    /\ fetch h' s
       = Some [("interface", clean_if); ("step", name); ("priority", priority);
               ("abortable", OBool false); ("argsinfo", argsinfo);
               ("args", ORef g)]
    /\ fetch h' g
       = Some (map (fun kv => (fst kv, declared_value_object h (snd kv)))
                 (declared_items h params)).

(** * Properties *)

#[local] Arguments Ascii.eqb : simpl never.
#[local] Arguments String.eqb : simpl never.
#[local] Arguments startswith : simpl never.
#[local] Arguments drop : simpl never.

(** ** Address resolver *)

Lemma get_node_ip_dhcp_run (n : node) (env : Env) (tr : trace) :
  raises env tr get_ip_addresses = None ->
  _get_node_ip_dhcp n env tr =
    (match ip_addresses env tr with
     | [] => Raise (FailedToGetIPAddressOnPort (uuid n))
     | [a] => Ok a
     | _ :: _ :: _ =>
         Raise (InstanceDeployFailure
                  (ReasonText ("Ansible driver does not support multiple IP addresses "
                               ++ "during deploy or cleaning")%string))
     end, tr ++ [get_ip_addresses]).
Proof.
  intros Hcall.
  unfold _get_node_ip_dhcp, bind, call_returning.
  rewrite Hcall.
  destruct (ip_addresses env tr) as [|a [|b l]]; reflexivity.
Qed.

(** C6: when the DHCP provider answers, address resolution raises
    [FailedToGetIPAddressOnPort] for no leased address, raises
    [InstanceDeployFailure] for more than one, and returns an address [a]
    exactly when [a] is the only leased address. *)
Theorem get_node_ip_dhcp_single_address (n : node) (env : Env) (tr : trace) :
  raises env tr get_ip_addresses = None ->
  let addrs := ip_addresses env tr in
  let result := fst (_get_node_ip_dhcp n env tr) in
  (addrs = [] -> result = Raise (FailedToGetIPAddressOnPort (uuid n)))
  /\ ((1 < List.length addrs)%nat -> exists r, result = Raise (InstanceDeployFailure r))
  /\ (forall a, result = Ok a <-> addrs = [a]).
Proof.
  intros Hcall addrs result.
  subst result. rewrite (get_node_ip_dhcp_run n env tr Hcall). fold addrs. simpl.
  destruct addrs as [|a [|b l]]; simpl.
  - split; [reflexivity|]. split; [lia|]. intros a; split; discriminate.
  - split; [discriminate|]. split; [lia|].
    intros a'; split; intros H; injection H as H; subst; reflexivity.
  - split; [discriminate|]. split; [eexists; reflexivity|].
    intros a'; split; discriminate.
Qed.

Lemma get_node_ip_dhcp_single_address_witness :
  fst (_get_node_ip_dhcp Reference.bare_node (World.sync ["10.0.0.5"]) [])
  = Ok "10.0.0.5".
Proof.
  apply (get_node_ip_dhcp_single_address Reference.bare_node
           (World.sync ["10.0.0.5"]) []); reflexivity.
Defined.

Lemma before_char_app (c : ascii) (a b : string) :
  has_char c a = false ->
  before_char c (a ++ String c b) = a.
Proof.
  induction a as [|d a IH]; simpl; intros H.
  - rewrite Ascii.eqb_refl. reflexivity.
  - apply orb_false_iff in H as [Hd Ha].
    rewrite Hd, (IH Ha). reflexivity.
Qed.

Lemma before_char_absent (c : ascii) (a : string) :
  has_char c a = false -> before_char c a = a.
Proof.
  induction a as [|d a IH]; simpl; intros H; [reflexivity|].
  apply orb_false_iff in H as [Hd Ha].
  rewrite Hd, (IH Ha). reflexivity.
Qed.

Lemma has_char_app (c : ascii) (a b : string) :
  has_char c (a ++ b) = has_char c a || has_char c b.
Proof.
  induction a as [|d a IH]; simpl; [reflexivity|].
  rewrite IH, orb_assoc. reflexivity.
Qed.

Lemma all_chars_has_char (p : ascii -> bool) (c : ascii) (s : string) :
  all_chars p s = true -> p c = false -> has_char c s = false.
Proof.
  induction s as [|d s IH]; simpl; intros Hall Hc; [reflexivity|].
  apply andb_true_iff in Hall as [Hd Hs].
  rewrite (IH Hs Hc), orb_false_r.
  destruct (Ascii.eqb_spec c d) as [->|_]; [congruence | reflexivity].
Qed.

Lemma take_netloc_app (loc path : string) :
  all_chars (fun c => negb (is_netloc_delim c)) loc = true ->
  path = "" \/ startswith "/" path = true ->
  take_netloc (loc ++ path) = loc.
Proof.
  intros Hloc Hpath.
  induction loc as [|c loc IH]; simpl in *.
  - destruct Hpath as [-> | Hp]; [reflexivity|].
    destruct path as [|d path]; [discriminate|].
    simpl in Hp. apply andb_true_iff in Hp as [Hd _].
    apply Ascii.eqb_eq in Hd. subst d. reflexivity.
  - apply andb_true_iff in Hloc as [Hc Hloc].
    apply negb_true_iff in Hc. rewrite Hc, (IH Hloc). reflexivity.
Qed.

Lemma all_chars_impl (p q : ascii -> bool) (s : string) :
  (forall c, p c = true -> q c = true) ->
  all_chars p s = true -> all_chars q s = true.
Proof.
  intros Hpq. induction s as [|c s IH]; simpl; [reflexivity|].
  intros H. apply andb_true_iff in H as [Hc Hs].
  rewrite (Hpq c Hc), (IH Hs). reflexivity.
Qed.

Lemma all_chars_app (p : ascii -> bool) (a b : string) :
  all_chars p (a ++ b) = all_chars p a && all_chars p b.
Proof.
  induction a as [|c a IH]; simpl; [reflexivity|].
  rewrite IH, andb_assoc. reflexivity.
Qed.

Lemma host_char_not_delim (c : ascii) :
  is_host_char c = true -> negb (is_netloc_delim c) = true.
Proof.
  destruct c as [[] [] [] [] [] [] [] []]; vm_compute; auto.
Qed.

Lemma digit_is_host_char (c : ascii) :
  is_digit c = true -> is_host_char c = true.
Proof.
  destruct c as [[] [] [] [] [] [] [] []]; vm_compute; auto.
Qed.

Lemma urlparse_http_netloc (sch loc path : string) :
  sch = "http" \/ sch = "https" ->
  all_chars (fun c => negb (is_netloc_delim c)) loc = true ->
  has_char "[" loc = false -> has_char "]" loc = false ->
  path = "" \/ startswith "/" path = true ->
  urlparse (sch ++ "://" ++ loc ++ path) = Ok {| scheme := sch; netloc := loc |}.
Proof.
  intros Hsch Hloc Hl Hr Hpath.
  assert (Hsplit : split_scheme (sch ++ "://" ++ loc ++ path)
                   = (sch, ("//" ++ loc ++ path)%string)).
  { destruct Hsch as [-> | ->]; reflexivity. }
  unfold urlparse. rewrite Hsplit.
  change (startswith "//" ("//" ++ loc ++ path)) with true.
  change (drop 2 ("//" ++ loc ++ path)) with (loc ++ path)%string.
  cbv iota. rewrite (take_netloc_app loc path Hloc Hpath), Hl, Hr.
  reflexivity.
Qed.

Lemma string_app_assoc (a b c : string) :
  ((a ++ b) ++ c = a ++ (b ++ c))%string.
Proof.
  induction a as [|x a IH]; simpl; [reflexivity|]. rewrite IH. reflexivity.
Qed.

Lemma string_app_nil (a : string) : (a ++ "")%string = a.
Proof.
  induction a as [|x a IH]; simpl; [reflexivity|]. rewrite IH. reflexivity.
Qed.

Lemma host_port_netloc (sch host tail path : string) :
  sch = "http" \/ sch = "https" ->
  all_chars is_host_char host = true ->
  tail = "" \/ (exists port, tail = (":" ++ port)%string /\ all_chars is_digit port = true) ->
  path = "" \/ startswith "/" path = true ->
  (let? parsed := urlparse (sch ++ "://" ++ host ++ tail ++ path) in
   Ok (before_char ":" (netloc parsed)))%outcome = Ok host.
Proof.
  intros Hsch Hhost Htail Hpath.
  rewrite <- (string_app_assoc host tail path).
  assert (Hcolon : has_char ":" host = false)
    by (apply (all_chars_has_char _ _ _ Hhost); reflexivity).
  assert (Hl : has_char "[" host = false)
    by (apply (all_chars_has_char _ _ _ Hhost); reflexivity).
  assert (Hr : has_char "]" host = false)
    by (apply (all_chars_has_char _ _ _ Hhost); reflexivity).
  assert (Hnd : all_chars (fun c => negb (is_netloc_delim c)) host = true)
    by (apply (all_chars_impl _ _ _ host_char_not_delim Hhost)).
  destruct Htail as [-> | (port & -> & Hport)].
  - rewrite (urlparse_http_netloc sch (host ++ "") path Hsch).
    + simpl. rewrite string_app_nil.
      rewrite (before_char_absent _ _ Hcolon). reflexivity.
    + rewrite all_chars_app, Hnd. reflexivity.
    + rewrite has_char_app, Hl. reflexivity.
    + rewrite has_char_app, Hr. reflexivity.
    + exact Hpath.
  - assert (Hp : all_chars is_host_char port = true)
      by (apply (all_chars_impl _ _ _ digit_is_host_char Hport)).
    rewrite (urlparse_http_netloc sch (host ++ ":" ++ port) path Hsch).
    + simpl. rewrite (before_char_app ":" host port Hcolon). reflexivity.
    + rewrite all_chars_app, Hnd. simpl.
      apply (all_chars_impl _ _ _ host_char_not_delim Hp).
    + rewrite has_char_app, Hl. simpl.
      apply (all_chars_has_char _ _ _ Hp). reflexivity.
    + rewrite has_char_app, Hr. simpl.
      apply (all_chars_has_char _ _ _ Hp). reflexivity.
    + exact Hpath.
Qed.

(** C7 as stated fails: for a node with no recorded callback URL the
    callback-mode resolver returns the empty string; it raises nothing. *)
Lemma get_node_ip_heartbeat_no_callback_returns :
  _get_node_ip_heartbeat Reference.bare_node = Ok ""
  /\ ~ (exists e, _get_node_ip_heartbeat Reference.bare_node = Raise e).
Proof.
  split; [reflexivity|].
  intros [e He]. discriminate He.
Qed.

(** C7, amended: in callback mode a node with no recorded callback URL
    resolves to the empty string, without an error; a recorded callback URL
    [http(s)://host:port/path], or one without a port, whose host has no
    colon or bracket resolves to [host]. *)
Theorem get_node_ip_heartbeat_result (n : node) :
  (Dict.get (driver_internal_info n) "agent_url" = None ->
   _get_node_ip_heartbeat n = Ok "")
  /\ (forall sch host port path,
        sch = "http" \/ sch = "https" ->
        all_chars is_host_char host = true ->
        all_chars is_digit port = true ->
        path = "" \/ startswith "/" path = true ->
        Dict.get (driver_internal_info n) "agent_url"
          = Some (VStr (sch ++ "://" ++ host ++ ":" ++ port ++ path)) ->
        _get_node_ip_heartbeat n = Ok host)
  /\ (forall sch host path,
        sch = "http" \/ sch = "https" ->
        all_chars is_host_char host = true ->
        path = "" \/ startswith "/" path = true ->
        Dict.get (driver_internal_info n) "agent_url"
          = Some (VStr (sch ++ "://" ++ host ++ path)) ->
        _get_node_ip_heartbeat n = Ok host).
Proof.
  unfold _get_node_ip_heartbeat, Dict.get_default.
  split; [|split].
  - intros ->. reflexivity.
  - intros sch host port path Hsch Hhost Hport Hpath ->.
    apply (host_port_netloc sch host (":" ++ port) path Hsch Hhost);
      [right; exists port; split; [reflexivity | exact Hport] | exact Hpath].
  - intros sch host path Hsch Hhost Hpath ->.
    apply (host_port_netloc sch host "" path Hsch Hhost);
      [left; reflexivity | exact Hpath].
Qed.

Lemma get_node_ip_heartbeat_result_witness :
  _get_node_ip_heartbeat
    {| uuid := "node-1"; driver_info := []; instance_info := []; properties := [];
       driver_internal_info := [("agent_url", VStr "http://192.168.1.20:9999")];
       extra := VNone |}
  = Ok "192.168.1.20".
Proof.
  refine (proj1 (proj2 (get_node_ip_heartbeat_result _))
            "http" "192.168.1.20" "9999" "" _ _ _ _ _);
    try reflexivity; left; reflexivity.
Defined.

(** ** Partition plan *)

Lemma is_str_functional (v : value) (a b : string) :
  is_str v a = true -> is_str v b = true -> a = b.
Proof.
  destruct v; simpl; try discriminate.
  intros Ha Hb. apply String.eqb_eq in Ha, Hb. congruence.
Qed.

Ltac step_partitioning :=
  match goal with
  | |- context [Dict.get (instance_info ?n) ?k] =>
      let E := fresh "E" in
      destruct (Dict.get (instance_info n) k) eqn:E
  | |- context [truthy ?v] =>
      let E := fresh "T" in destruct (truthy v) eqn:E
  end; cbv beta iota delta [obind getitem Dict.get_default].

Ltac step_plan := step_partitioning; cbn [find negb].

(** C5: a plan is built exactly when the instance configuration has every
    key the plan reads, and otherwise [KeyError] names the first one that is
    missing.  The last partition of a plan is the only one named [root];
    under a GPT label its first partition is the [bios_grub] one; under an
    MSDOS label (also the default) [root] carries the boot flag and no
    partition is named [bios]. *)
Theorem partition_plan_shape (lib : Lib) (n : node) :
  let label := py_or (get_disk_label lib n) (VStr "msdos") in
  match first_missing (instance_info n) (plan_keys n) with
  | Some k => _parse_partitioning_info lib n = Raise (KeyError k)
  | None =>
      exists i_info front root,
        _parse_partitioning_info lib n = Ok [("partition_info", VDict i_info)]
        /\ Dict.get i_info "label" = Some label
        /\ Dict.get i_info "partitions" = Some (VList (front ++ [VDict root]))
        /\ Dict.get root "name" = Some (VStr "root")
        /\ Forall (fun p => partition_field p "name" <> Some (VStr "root")) front
        /\ (is_str label "gpt" = true ->
            exists rest, front = bios_grub_partition :: rest)
        /\ (is_str label "msdos" = true ->
            Dict.get root "flags" = Some (VDict [("boot", VStr "yes")])
            /\ Forall (fun p => partition_field p "name" <> Some (VStr "bios")) front)
  end.
Proof.
  intros label.
  unfold _parse_partitioning_info, first_missing, plan_keys, Dict.contains. fold label.
  cbv beta iota delta [obind getitem Dict.get_default]; cbn [find negb].
  destruct (is_str label "gpt") eqn:Hgpt; destruct (is_str label "msdos") eqn:Hmsdos.
  1: { pose proof (is_str_functional _ _ _ Hgpt Hmsdos). discriminate. }
  all: repeat step_plan.
  all: try congruence.
  all: try reflexivity.
  all: do 3 eexists.
  all: do 4 (split; [reflexivity|]).
  all: simpl app.
  all: split; [repeat constructor; intros H; vm_compute in H; discriminate H|].
  all: split; [intros H; try discriminate H; eexists; reflexivity|].
  all: intros H; try discriminate H.
  all: split; [reflexivity|].
  all: repeat constructor; intros H'; vm_compute in H'; discriminate H'.
Qed.

Lemma partition_plan_shape_witness :
  exists i_info rest root,
    _parse_partitioning_info (Reference.lib (Ok VNone)) gpt_node
    = Ok [("partition_info", VDict i_info)]
    /\ Dict.get i_info "partitions"
       = Some (VList (bios_grub_partition :: rest ++ [VDict root]))
    /\ Dict.get root "name" = Some (VStr "root").
Proof.
  destruct (partition_plan_shape (Reference.lib (Ok VNone)) gpt_node)
    as (i_info & front & root & Hplan & _ & Hparts & Hroot & _ & Hgpt & _).
  destruct (Hgpt eq_refl) as (rest & ->).
  exists i_info, rest, root. repeat split; assumption.
Defined.

(** With an ephemeral partition asked for, the preserve flag is read too. *)
Example partition_plan_missing_key :
  _parse_partitioning_info (Reference.lib (Ok VNone))
    {| uuid := "node-3"; driver_info := []; driver_internal_info := [];
       instance_info := [("ephemeral_mb", VInt 100); ("ephemeral_format", VStr "ext4");
                         ("swap_mb", VInt 0); ("root_mb", VInt 10240)];
       properties := []; extra := VDict [] |}
  = Raise (KeyError "preserve_ephemeral").
Proof. reflexivity. Qed.

(** ** Dictionaries *)

Lemma distinct_NoDup (l : list string) : distinct l = true -> NoDup l.
Proof.
  induction l as [|x l IH]; simpl; intros H; constructor.
  - apply andb_true_iff in H as [H _]. apply negb_true_iff in H.
    intros Hin.
    assert (existsb (String.eqb x) l = true)
      by (apply existsb_exists; exists x; split; [exact Hin | apply String.eqb_refl]).
    congruence.
  - apply andb_true_iff in H as [_ H]. exact (IH H).
Qed.

Lemma dict_set_fresh (d : dict) (k : string) (v : value) :
  ~ In k (Dict.keys d) -> Dict.set d k v = d ++ [(k, v)].
Proof.
  induction d as [|[k' v'] d IH]; simpl; intros Hk; [reflexivity|].
  destruct (String.eqb_spec k' k) as [->|Hne].
  - exfalso. apply Hk. left. reflexivity.
  - rewrite IH; [reflexivity|]. intros Hin. apply Hk. right. exact Hin.
Qed.

Lemma dict_get_in (d : dict) (k : string) (v : value) :
  NoDup (Dict.keys d) -> In (k, v) d -> Dict.get d k = Some v.
Proof.
  induction d as [|[k' v'] d IH]; simpl; intros Hnd Hin; [contradiction|].
  inversion Hnd as [|? ? Hk' Hnd']; subst.
  destruct Hin as [Heq | Hin].
  - injection Heq as -> ->. rewrite String.eqb_refl. reflexivity.
  - destruct (String.eqb_spec k' k) as [->|Hne].
    + exfalso. apply Hk'. apply (in_map fst) in Hin. exact Hin.
    + apply IH; assumption.
Qed.

Lemma keys_app (a b : dict) : Dict.keys (a ++ b) = Dict.keys a ++ Dict.keys b.
Proof. apply map_app. Qed.

(** ** Root-device hints *)






(** A hint with another operator fails the whole parse and is named in the
    error, together with every other such hint. *)
Example parse_root_device_hints_advanced :
  _parse_root_device_hints (Reference.lib (Ok VNone))
    {| uuid := "node-3"; driver_info := []; driver_internal_info := [];
       instance_info := []; extra := VNone;
       properties :=
         [("root_device",
           VDict [("size", VStr ">= 100"); ("model", VStr "s== a");
                  ("vendor", VStr "<in> acme")])] |}
  = Raise (InvalidParameterValue
             (AdvancedHints "node-3"
                [("size", VStr ">= 100"); ("vendor", VStr "<in> acme")])).
Proof. reflexivity. Qed.

(** ** Clean-step validation *)

Lemma check_args_run (name : value) (items : dict) :
  forall missing,
    forallb (fun kv => is_mapping (snd kv)) items = true ->
    check_args name items missing
    = Ok (missing
          ++ flat_map (fun kv =>
                         if lacks_required_value (snd kv)
                         then [(name, (fst kv ++ ".value")%string)]
                         else []) items).
Proof.
  induction items as [|[arg_name arg] items IH]; intros missing Htyped; simpl.
  - rewrite app_nil_r. reflexivity.
  - simpl in Htyped. apply andb_true_iff in Htyped as [Harg Hitems].
    destruct arg as [| | | | |a]; try discriminate Harg.
    simpl.
    destruct (truthy (Dict.get_default a "required" (VBool false))
              && negb (Dict.contains a "value")).
    + rewrite (IH _ Hitems), <- app_assoc. reflexivity.
    + rewrite (IH _ Hitems). reflexivity.
Qed.

Lemma check_steps_run (steps : list dict) :
  forall missing,
    forallb typed_step steps = true ->
    check_steps (map VDict steps) missing = Ok (missing ++ flat_map reported steps).
Proof.
  induction steps as [|d steps IH]; intros missing Htyped; simpl.
  - rewrite app_nil_r. reflexivity.
  - simpl in Htyped. apply andb_true_iff in Htyped as [Hd Hsteps].
    unfold reported, missing_name, missing_interface, step_name.
    destruct (truthy (Dict.get_default d "name" VNone)); simpl negb; cbv iota.
    + unfold typed_step, declared_args in *.
      destruct (Dict.get_default d "args" (VDict [])) as [| | | | |a];
        try discriminate Hd.
      simpl in Hd. simpl obind.
      rewrite (check_args_run _ a _ Hd). simpl obind.
      rewrite (IH _ Hsteps).
      destruct (Dict.contains d "interface"); simpl negb; cbv iota;
        rewrite <- ?app_assoc; reflexivity.
    + rewrite (IH _ Hsteps), <- app_assoc. reflexivity.
Qed.

Lemma reported_nil_iff (d : dict) : reported d = [] <-> defective d = false.
Proof.
  unfold reported, defective, missing_value.
  destruct (missing_name d); simpl; [split; discriminate|].
  destruct (missing_interface d); simpl; [split; discriminate|].
  induction (declared_args d) as [|[k v] l IH]; simpl; [tauto|].
  destruct (lacks_required_value v); simpl; [split; discriminate | exact IH].
Qed.

Lemma reported_all_nil_iff (steps : list dict) :
  flat_map reported steps = [] <-> existsb defective steps = false.
Proof.
  induction steps as [|d steps IH]; simpl; [tauto|].
  rewrite orb_false_iff, <- IH, <- reported_nil_iff.
  split.
  - intros H. apply app_eq_nil in H. exact H.
  - intros [-> ->]. reflexivity.
Qed.

(** The validation of a typed document, in closed form, as far as the
    missing fields decide it. *)
Lemma validate_clean_steps_missing (steps : list dict) (node_uuid : string) :
  forallb typed_step steps = true ->
  match flat_map reported steps with
  | [] =>
      _validate_clean_steps (VList (map VDict steps)) node_uuid = Ok tt
      \/ _validate_clean_steps (VList (map VDict steps)) node_uuid
         = Raise (NodeCleaningFailure node_uuid NamesNotUnique)
      \/ _validate_clean_steps (VList (map VDict steps)) node_uuid = Raise TypeError
  | missing =>
      _validate_clean_steps (VList (map VDict steps)) node_uuid
      = Raise (NodeCleaningFailure node_uuid (MalformedCleanSteps missing))
  end.
Proof.
  intros Htyped.
  unfold _validate_clean_steps. simpl iterate. simpl obind.
  rewrite (check_steps_run steps [] Htyped). simpl.
  destruct (flat_map reported steps) as [|m missing] eqn:Hm; [|reflexivity].
  destruct (map_outcome (fun s => subscript s "name") (map VDict steps)) as [names|e] eqn:Hnames.
  - simpl. destruct (py_set names) as [distinct_names|e] eqn:Hset; simpl.
    + destruct (List.length distinct_names =? List.length (map VDict steps))%nat;
        simpl; [left | right; left]; reflexivity.
    + right. right. unfold py_set in Hset.
      assert (Hgen : forall l acc e', py_set_from l acc = Raise e' -> e' = TypeError).
      { clear. induction l as [|x l IH]; simpl; intros acc e' H; [discriminate|].
        destruct (hashable x); [exact (IH _ _ H) | congruence]. }
      rewrite (Hgen _ _ _ Hset). reflexivity.
  - exfalso.
    apply reported_all_nil_iff in Hm.
    clear Htyped. revert e Hnames.
    induction steps as [|d steps IH]; simpl; intros e Hnames; [discriminate|].
    simpl in Hm. apply orb_false_iff in Hm as [Hd Hsteps].
    unfold defective in Hd. apply orb_false_iff in Hd as [Hd _].
    apply orb_false_iff in Hd as [Hname _].
    unfold missing_name, step_name, Dict.get_default in Hname.
    unfold getitem in Hnames.
    destruct (Dict.get d "name") as [v|]; [|discriminate Hname].
    simpl in Hnames.
    destruct (map_outcome (fun s => subscript s "name") (map VDict steps)) eqn:E;
      [discriminate | exact (IH Hsteps _ eq_refl)].
Qed.

Lemma get_clean_steps_of_document (conf : Conf) (lib : Lib) (n : node)
  (interface : option string) (override_priorities : option dict) (doc : value) :
  holds_document conf lib n doc ->
  _get_clean_steps conf lib n interface override_priorities
  = (let? _ := _validate_clean_steps doc (uuid n) in
     let? items := iterate doc in
     build_steps items interface (override_or_empty override_priorities) [])%outcome.
Proof.
  intros (path & Hpath & Hload).
  unfold _get_clean_steps, clean_steps_path in *.
  destruct (Dict.get_default (driver_info n) "ansible_clean_steps_config"
              (VStr DEFAULT_CLEAN_STEPS)); try discriminate Hpath.
  injection Hpath as Hpath. rewrite Hpath, Hload. reflexivity.
Qed.

Lemma pop_values_raise (items argsinfo args : dict) (e : exn) :
  pop_values items argsinfo args = Raise e -> e = AttributeError.
Proof.
  revert argsinfo args.
  induction items as [|[arg arg_info] items IH]; simpl; intros argsinfo args H;
    [discriminate|].
  destruct arg_info; simpl in H; try congruence.
  exact (IH _ _ H).
Qed.

Lemma make_step_raise (params name clean_if : value) (override : dict) (e : exn) :
  make_step params name clean_if override = Raise e -> e = AttributeError.
Proof.
  unfold make_step.
  destruct params as [| | | | |p]; simpl; try congruence.
  destruct (Dict.get_default p "args" (VDict [])) as [| | | | |a]; simpl; try congruence.
  destruct (pop_values a a []) as [[argsinfo args]|e'] eqn:Hpop; simpl; [discriminate|].
  intros H. injection H as <-. exact (pop_values_raise _ _ _ _ Hpop).
Qed.

Lemma subscript_raise (v : value) (k : string) (e : exn) :
  subscript v k = Raise e -> python_error e.
Proof.
  unfold subscript, getitem, python_error.
  destruct v as [| | | | |d]; try (intros H; injection H as <-; tauto).
  destruct (Dict.get d k); [discriminate|].
  intros H. injection H as <-. right. right. exists k. reflexivity.
Qed.

Lemma build_steps_raise (items : list value) (interface : option string)
  (override : dict) (e : exn) :
  forall steps,
    build_steps items interface override steps = Raise e -> python_error e.
Proof.
  induction items as [|params items IH]; simpl; intros steps H; [discriminate|].
  destruct (subscript params "name") as [name|e1] eqn:Hname; simpl in H;
    [|injection H as <-; exact (subscript_raise _ _ _ Hname)].
  destruct (subscript params "interface") as [clean_if|e2] eqn:Hif; simpl in H;
    [|injection H as <-; exact (subscript_raise _ _ _ Hif)].
  destruct (filtered_out interface clean_if); [exact (IH _ H)|].
  destruct (make_step params name clean_if override) as [step|e3] eqn:Hstep;
    simpl in H; [exact (IH _ H)|].
  injection H as <-. left. exact (make_step_raise _ _ _ _ _ Hstep).
Qed.

Lemma python_error_not_cleaning_failure (e : exn) (node_uuid : string)
  (why : cleaning_failure) :
  python_error e -> e <> NodeCleaningFailure node_uuid why.
Proof.
  intros [-> | [-> | [k ->]]]; discriminate.
Qed.

Lemma reported_in (steps : list dict) (d : dict) (pair : value * string) :
  In d steps -> In pair (reported d) -> In pair (flat_map reported steps).
Proof.
  intros Hd Hpair. apply in_flat_map. exists d. split; assumption.
Qed.

(** C2 as stated fails twice: a step without a name is reported for its
    name alone, its missing interface and its required argument without a
    value are not enumerated; and a document in which no field is missing
    still fails to load when two steps share a name. *)
Lemma clean_steps_malformed_counterexample :
  _get_clean_steps (Reference.conf true) (Reference.lib (Ok Documents.nameless))
    Reference.bare_node None None
  = Raise (NodeCleaningFailure "node-1"
             (MalformedCleanSteps [(VStr "undefined", "name")]))
  /\ _get_clean_steps (Reference.conf true) (Reference.lib (Ok Documents.twins))
       Reference.bare_node None None
     = Raise (NodeCleaningFailure "node-1" NamesNotUnique).
Proof. split; reflexivity. Qed.

(** C2, amended: for a document that is a list of step mappings whose
    arguments are mappings, loading fails with the malformed-steps error if
    and only if some step has no (non-empty) name, no interface or a
    required argument without a value; the error then lists, in document
    order, [(undefined, name)] for each step without a name, whose other
    fields are not examined, and every missing interface and every required
    argument without a value of each named step. *)
Theorem clean_steps_malformed (conf : Conf) (lib : Lib) (n : node)
  (interface : option string) (override_priorities : option dict)
  (steps : list dict) :
  holds_document conf lib n (VList (map VDict steps)) ->
  forallb typed_step steps = true ->
  let load := _get_clean_steps conf lib n interface override_priorities in
  let missing := flat_map reported steps in
  (existsb defective steps = true <->
   exists m, load = Raise (NodeCleaningFailure (uuid n) (MalformedCleanSteps m)))
  /\ (existsb defective steps = true ->
      load = Raise (NodeCleaningFailure (uuid n) (MalformedCleanSteps missing)))
  /\ (forall d, In d steps ->
        if missing_name d then In (VStr "undefined", "name") missing
        else
          (missing_interface d = true -> In (step_name d, "interface") missing)
          /\ (forall arg a,
                 In (arg, a) (declared_args d) ->
                 lacks_required_value a = true ->
                 In (step_name d, (arg ++ ".value")%string) missing)).
Proof.
  intros Hdoc Htyped load missing.
  assert (Hfail : existsb defective steps = true ->
                  load = Raise (NodeCleaningFailure (uuid n) (MalformedCleanSteps missing))).
  { intros Hdef. subst load.
    rewrite (get_clean_steps_of_document _ _ _ _ _ _ Hdoc).
    pose proof (validate_clean_steps_missing steps (uuid n) Htyped) as Hv.
    fold missing in Hv.
    destruct missing as [|m missing'] eqn:Hm.
    - apply reported_all_nil_iff in Hm. congruence.
    - rewrite Hv. reflexivity. }
  split; [split|split].
  - intros Hdef. exists missing. exact (Hfail Hdef).
  - intros (m & Hm).
    destruct (existsb defective steps) eqn:Hdef; [reflexivity|exfalso].
    apply reported_all_nil_iff in Hdef.
    subst load. rewrite (get_clean_steps_of_document _ _ _ _ _ _ Hdoc) in Hm.
    pose proof (validate_clean_steps_missing steps (uuid n) Htyped) as Hv.
    rewrite Hdef in Hv.
    destruct Hv as [Hv | [Hv | Hv]]; rewrite Hv in Hm; simpl in Hm; try discriminate Hm.
    apply build_steps_raise in Hm.
    exact (python_error_not_cleaning_failure _ _ _ Hm eq_refl).
  - exact Hfail.
  - intros d Hd. subst missing.
    destruct (missing_name d) eqn:Hname.
    + apply (reported_in steps d _ Hd). unfold reported. rewrite Hname. left. reflexivity.
    + split.
      * intros Hif. apply (reported_in steps d _ Hd). unfold reported.
        rewrite Hname, Hif. left. reflexivity.
      * intros arg a Hin Ha. apply (reported_in steps d _ Hd). unfold reported.
        rewrite Hname. apply in_or_app. right.
        apply in_flat_map. exists (arg, a). split; [exact Hin|].
        simpl. rewrite Ha. left. reflexivity.
Qed.

Lemma clean_steps_malformed_witness :
  _get_clean_steps (Reference.conf true) (Reference.lib (Ok Documents.two_defects))
    Reference.bare_node (Some "deploy") None
  = Raise (NodeCleaningFailure "node-1"
             (MalformedCleanSteps [(VStr "wipe", "interface");
                                   (VStr "wipe", "tags.value");
                                   (VStr "undefined", "name")])).
Proof.
  refine (proj1 (proj2 (clean_steps_malformed (Reference.conf true)
                          (Reference.lib (Ok Documents.two_defects))
                          Reference.bare_node (Some "deploy") None
                          [[("name", VStr "wipe");
                            ("args", VDict [("tags", VDict [("required", VBool true)])])];
                           [("interface", VStr "deploy")]] _ _)) _).
  - eexists. split; reflexivity.
  - reflexivity.
  - reflexivity.
Defined.

(** ** Unique step names *)













(** ** Built clean steps *)

Lemma check_args_ok (name : value) (items : dict) :
  forall missing,
    check_args name items missing = Ok [] ->
    missing = []
    /\ forallb (fun kv => is_mapping (snd kv)) items = true
    /\ existsb (fun kv => lacks_required_value (snd kv)) items = false.
Proof.
  induction items as [|[arg_name arg] items IH]; simpl; intros missing H.
  - injection H as ->. repeat split.
  - destruct arg as [| | | | |a]; simpl in H; try discriminate H.
    simpl.
    destruct (truthy (Dict.get_default a "required" (VBool false))
              && negb (Dict.contains a "value")).
    + destruct (IH _ H) as (Hm & _). destruct missing; discriminate Hm.
    + exact (IH _ H).
Qed.

Lemma check_steps_ok (items : list value) :
  forall missing,
    check_steps items missing = Ok [] ->
    missing = [] /\ Forall sound items.
Proof.
  induction items as [|step items IH]; simpl; intros missing H.
  - injection H as ->. split; constructor.
  - destruct step as [| | | | |d]; simpl in H; try discriminate H.
    destruct (truthy (Dict.get_default d "name" VNone)) eqn:Hname; simpl in H.
    + destruct (Dict.get_default d "args" (VDict [])) as [| | | | |a] eqn:Hargs;
        simpl in H; try discriminate H.
      match type of H with
      | context [check_args ?nm a ?m] =>
          destruct (check_args nm a m) as [missing'|] eqn:Hcheck
      end; simpl in H; [|discriminate H].
      destruct (IH _ H) as (-> & Hitems).
      destruct (check_args_ok _ _ _ Hcheck) as (Hm & Htyped & Hlacks).
      split.
      * destruct (Dict.contains d "interface"); simpl in Hm; [exact Hm|].
        destruct missing; discriminate Hm.
      * constructor; [|exact Hitems].
        exists d. split; [reflexivity|].
        unfold typed_step, defective, missing_name, missing_interface,
          missing_value, declared_args, step_name.
        rewrite Hargs, Hname, Htyped, Hlacks.
        destruct (Dict.contains d "interface"); [split; reflexivity|].
        simpl in Hm. destruct missing; discriminate Hm.
    + destruct (IH _ H) as (Hm & _). destruct missing; discriminate Hm.
Qed.

Lemma validate_clean_steps_ok (doc : value) (node_uuid : string) :
  _validate_clean_steps doc node_uuid = Ok tt ->
  exists items, iterate doc = Ok items /\ Forall sound items.
Proof.
  unfold _validate_clean_steps.
  destruct (iterate doc) as [items|]; simpl; [|discriminate].
  destruct (check_steps items []) as [missing|] eqn:Hcheck; simpl; [|discriminate].
  destruct missing; [|discriminate].
  intros _. exists items. split; [reflexivity|].
  exact (proj2 (check_steps_ok _ _ Hcheck)).
Qed.

Lemma pop_values_run (items : dict) :
  forall argsinfo args,
    forallb (fun kv => is_mapping (snd kv)) items = true ->
    NoDup (Dict.keys items) ->
    (forall k, In k (Dict.keys items) -> ~ In k (Dict.keys args)) ->
    exists argsinfo',
      pop_values items argsinfo args
      = Ok (argsinfo',
            args ++ map (fun kv => (fst kv, declared_value (snd kv))) items).
Proof.
  induction items as [|[arg arg_info] items IH]; simpl; intros argsinfo args Ht Hnd Hfresh.
  - exists argsinfo. rewrite app_nil_r. reflexivity.
  - apply andb_true_iff in Ht as [Harg Ht].
    inversion Hnd as [|? ? Hk Hnd']; subst.
    destruct arg_info as [| | | | |a]; try discriminate Harg. simpl.
    rewrite (dict_set_fresh args arg _ (Hfresh arg (or_introl eq_refl))).
    destruct (IH (Dict.set argsinfo arg (VDict (Dict.remove a "value")))
                (args ++ [(arg, Dict.get_default a "value" VNone)]) Ht Hnd')
      as (argsinfo' & Hrun).
    + intros k Hin. rewrite keys_app, in_app_iff. simpl.
      intros [H | [<- | []]]; [exact (Hfresh k (or_intror Hin) H) | exact (Hk Hin)].
    + exists argsinfo'. rewrite Hrun, <- app_assoc. reflexivity.
Qed.

Lemma make_step_resolves (d : dict) (name clean_if : value) (override : dict) :
  typed_step d = true ->
  defective d = false ->
  distinct (Dict.keys (declared_args d)) = true ->
  exists step,
    make_step (VDict d) name clean_if override = Ok step
    /\ resolves (VDict d) step.
Proof.
  intros Htyped Hsound Hdistinct.
  apply distinct_NoDup in Hdistinct.
  unfold typed_step, declared_args in *. unfold make_step. simpl as_dict. simpl obind.
  unfold defective in Hsound. apply orb_false_iff in Hsound as [_ Hvalues].
  unfold missing_value, declared_args in Hvalues.
  destruct (Dict.get_default d "args" (VDict [])) as [| | | | |a] eqn:Hargs;
    try discriminate Htyped.
  simpl in Htyped. simpl as_dict. simpl obind.
  destruct (pop_values_run a a [] Htyped Hdistinct) as (argsinfo' & Hpop);
    [intros k _ []|].
  rewrite Hpop. simpl app. simpl obind.
  eexists. split; [reflexivity|].
  unfold resolves, step_args, declared_args. simpl declaration. rewrite Hargs.
  split; [reflexivity|].
  change (Dict.get_default _ "args" VNone)
    with (VDict (map (fun kv => (fst kv, declared_value (snd kv))) a)).
  cbv iota.
  assert (Hkeys : Dict.keys (map (fun kv => (fst kv, declared_value (snd kv))) a)
                  = Dict.keys a).
  { unfold Dict.keys. rewrite map_map. reflexivity. }
  split; [exact Hkeys|].
  intros arg arg_info Hin. split.
  - apply dict_get_in; [rewrite Hkeys; exact Hdistinct|].
    apply (in_map (fun kv => (fst kv, declared_value (snd kv))) a (arg, arg_info) Hin).
  - intros Hnovalue.
    assert (Hmap : is_mapping arg_info = true).
    { rewrite forallb_forall in Htyped. exact (Htyped (arg, arg_info) Hin). }
    assert (Hlacks : lacks_required_value arg_info = false).
    { destruct (lacks_required_value arg_info) eqn:E; [|reflexivity].
      assert (existsb (fun kv => lacks_required_value (snd kv)) a = true)
        by (apply existsb_exists; exists (arg, arg_info); split; assumption).
      congruence. }
    destruct arg_info as [| | | | |ai]; try discriminate Hmap.
    unfold declared_value, Dict.get_default, Dict.contains in *. simpl declaration in *.
    simpl in Hlacks. unfold Dict.contains in Hlacks.
    destruct (Dict.get ai "value"); [discriminate Hnovalue|].
    split; [reflexivity|].
    rewrite andb_true_r in Hlacks. exact Hlacks.
Qed.

Lemma build_steps_resolves (items : list value) (interface : option string)
  (override : dict) :
  Forall sound items ->
  forallb distinct_args items = true ->
  forall acc result,
    build_steps items interface override acc = Ok result ->
    exists built,
      result = acc ++ built
      /\ Forall2 resolves (filter (selected interface) items) built.
Proof.
  induction items as [|params items IH]; simpl; intros Hsound Hdistinct acc result H.
  - injection H as <-. exists []. rewrite app_nil_r. split; constructor.
  - inversion Hsound as [|? ? (d & -> & Htyped & Hd) Hitems]; subst.
    apply andb_true_iff in Hdistinct as [Hargs Hdistinct].
    simpl in H. unfold getitem in H.
    assert (Hdef := Hd).
    unfold defective in Hd. apply orb_false_iff in Hd as [Hd _].
    apply orb_false_iff in Hd as [Hname Hif].
    unfold missing_name, step_name, missing_interface, Dict.contains,
      Dict.get_default in Hname, Hif.
    unfold selected, Dict.get_default. simpl declaration.
    destruct (Dict.get d "name") as [name|]; [|discriminate Hname].
    destruct (Dict.get d "interface") as [clean_if|]; [|discriminate Hif].
    simpl in H.
    destruct (filtered_out interface clean_if); simpl.
    + exact (IH Hitems Hdistinct _ _ H).
    + destruct (make_step_resolves d name clean_if override Htyped Hdef Hargs)
        as (step & Hstep & Hres).
      rewrite Hstep in H. simpl in H.
      destruct (IH Hitems Hdistinct _ _ H) as (built & -> & Hbuilt).
      exists (step :: built). rewrite <- app_assoc. split; [reflexivity|].
      constructor; assumption.
Qed.

(** When a clean-step document that is a tree (every mapping an object of
    its own, none shared through an alias) and whose argument names are
    distinct within each step loads, the returned steps are, in order,
    those built from the declarations that pass the interface filter; each
    has [abortable] false and binds every declared argument name, and no
    other, to the value the argument declares, or to [None] when it declares
    none, which only an argument that is not required does. *)
Theorem clean_steps_resolved_arguments (conf : Conf) (lib : Lib) (n : node)
  (interface : option string) (override_priorities : option dict)
  (doc : value) (items result : list value) :
  holds_document conf lib n doc ->
  iterate doc = Ok items ->
  forallb distinct_args items = true ->
  _get_clean_steps conf lib n interface override_priorities = Ok result ->
  Forall2 resolves (filter (selected interface) items) result.
Proof.
  intros Hdoc Hitems Hdistinct Hload.
  rewrite (get_clean_steps_of_document _ _ _ _ _ _ Hdoc) in Hload.
  destruct (_validate_clean_steps doc (uuid n)) as [[]|] eqn:Hv; simpl in Hload;
    [|discriminate Hload].
  destruct (validate_clean_steps_ok _ _ Hv) as (items' & Hitems' & Hsound).
  rewrite Hitems in Hitems'. injection Hitems' as <-.
  rewrite Hitems in Hload. simpl in Hload.
  destruct (build_steps_resolves items interface _ Hsound Hdistinct [] result Hload)
    as (built & -> & Hbuilt).
  exact Hbuilt.
Qed.

(** The sound example document loads under the [deploy] filter to its one
    [deploy] step, with the declared value and [None]. *)
Example clean_steps_sound_document :
  _get_clean_steps (Reference.conf true) (Reference.lib (Ok Documents.sound))
    Reference.bare_node (Some "deploy") (Some [("erase_devices", VInt 20)])
  = Ok [VDict [("interface", VStr "deploy"); ("step", VStr "erase_devices");
               ("priority", VInt 20); ("abortable", VBool false);
               ("argsinfo",
                VDict [("tags", VDict [("required", VBool true)]);
                       ("passes", VDict [("description", VStr "count")])]);
               ("args",
                VDict [("tags", VList [VStr "zap"]); ("passes", VNone)])]].
Proof. reflexivity. Qed.

Lemma clean_steps_resolved_arguments_witness :
  exists result,
    _get_clean_steps (Reference.conf true) (Reference.lib (Ok Documents.sound))
      Reference.bare_node (Some "deploy") None = Ok result
    /\ Forall2 resolves
         (filter (selected (Some "deploy"))
            match Documents.sound with VList l => l | _ => [] end)
         result.
Proof.
  eexists. split; [reflexivity|].
  apply (clean_steps_resolved_arguments (Reference.conf true)
           (Reference.lib (Ok Documents.sound)) Reference.bare_node
           (Some "deploy") None Documents.sound).
  - eexists. split; reflexivity.
  - reflexivity.
  - reflexivity.
  - reflexivity.
Defined.

(** ** Steps that share their arguments *)

(** C10 fails on a document with an alias.  The document passes the
    validation and its second step declares the value [[zap]] for its
    required argument [tags]; but the loader binds [tags] to [None] in the
    second step, because building the first step has taken the value out of
    the mapping the two steps share. *)
Theorem clean_steps_shared_arguments :
  _validate_clean_steps (snapshot Aliased.heap Aliased.document) "node-1" = Ok tt
  /\ declared_argument Aliased.heap (ORef 3) "tags" = Some (OList [OStr "zap"])
  /\ exists first second h,
       _get_clean_steps_shared (Reference.conf true) Aliased.safe_load_file
         Reference.bare_node None None
       = Ok ([first; second], h)
       /\ subscript_object h second "step" = Ok (OStr "erase_devices")
       /\ resolved_argument h first "tags" = Some (OList [OStr "zap"])
       /\ resolved_argument h second "tags" = Some ONone.
Proof.
  split; [reflexivity|]. split; [reflexivity|].
  do 3 eexists. split; [vm_compute; reflexivity|].
  repeat split; reflexivity.
Qed.

(** Under the filter that leaves the first step out, nothing has been
    taken from the shared mapping and the same step binds [tags] to its
    declared value. *)
Example clean_steps_shared_arguments_filtered :
  exists only h,
    _get_clean_steps_shared (Reference.conf true) Aliased.safe_load_file
      Reference.bare_node (Some "deploy") None
    = Ok ([only], h)
    /\ subscript_object h only "step" = Ok (OStr "erase_devices")
    /\ resolved_argument h only "tags" = Some (OList [OStr "zap"]).
Proof.
  do 2 eexists. split; [vm_compute; reflexivity|].
  split; reflexivity.
Qed.

(** On a document without aliases the steps built from the objects print
    as the steps built from the tree. *)
Example clean_steps_separate_objects :
  snapshot Separate.heap Separate.document = Documents.sound
  /\ printed (clean_steps_of_objects Separate.heap Separate.document "node-1" None None)
     = _get_clean_steps (Reference.conf true) (Reference.lib (Ok Documents.sound))
         Reference.bare_node None None.
Proof. split; reflexivity. Qed.

(** ** Steps that share no argument description *)



Lemma fetch_assign_same (h : store) :
  forall a m, (a < List.length h)%nat -> fetch (assign h a m) a = Some m.
Proof.
  induction h as [|m0 h IH]; intros [|a] m; simpl; intros H; try lia; [reflexivity|].
  apply IH. lia.
Qed.


















(** ** Convergence poller *)

Lemma failed_attempts_snoc (tr : trace) (k wait : nat) :
  (tr ++ [get_power_state]) ++ sleep wait :: failed_attempts k wait
  = tr ++ failed_attempts (S k) wait.
Proof. rewrite <- app_assoc. reflexivity. Qed.

Lemma failed_attempts_counts (k wait : nat) :
  reads (failed_attempts k wait ++ [get_power_state]) = S k
  /\ sleeps (failed_attempts k wait ++ [get_power_state]) = k.
Proof.
  unfold reads, sleeps.
  induction k as [|k [IHr IHs]]; simpl; [split; reflexivity|].
  rewrite IHr, IHs. split; reflexivity.
Qed.

Lemma retry_loop_success (env : Env) (target : string) (wait : nat) :
  reads_never_raise env ->
  forall j more tr,
    (j <= more)%nat ->
    (forall k, (k < j)%nat -> power_state env (tr ++ failed_attempts k wait) <> target) ->
    power_state env (tr ++ failed_attempts j wait) = target ->
    retry_loop more (fun state => negb (state =? target)) wait read_power_state env tr
    = (Ok target, tr ++ failed_attempts j wait ++ [get_power_state]).
Proof.
  intros Hreads.
  induction j as [|j IH]; intros more tr Hle Hbefore Hat.
  - simpl in Hat. rewrite app_nil_r in Hat.
    destruct more; simpl; unfold read_power_state, call_returning;
      rewrite Hreads, Hat, String.eqb_refl; reflexivity.
  - destruct more as [|more]; [lia|].
    simpl. unfold read_power_state at 1, call_returning. rewrite Hreads.
    assert (Hfirst : power_state env tr <> target).
    { specialize (Hbefore 0%nat ltac:(lia)). simpl in Hbefore.
      rewrite app_nil_r in Hbefore. exact Hbefore. }
    apply String.eqb_neq in Hfirst. rewrite Hfirst. simpl negb. cbv iota.
    unfold bind, emit.
    rewrite (IH more ((tr ++ [get_power_state]) ++ [sleep wait])).
    + rewrite <- !app_assoc. reflexivity.
    + lia.
    + intros k Hk. rewrite <- app_assoc. simpl. rewrite failed_attempts_snoc.
      apply Hbefore. lia.
    + rewrite <- app_assoc. simpl. rewrite failed_attempts_snoc. exact Hat.
Qed.

Lemma retry_loop_exhausted (env : Env) (target : string) (wait : nat) :
  reads_never_raise env ->
  forall more tr,
    (forall k, (k <= more)%nat ->
               power_state env (tr ++ failed_attempts k wait) <> target) ->
    retry_loop more (fun state => negb (state =? target)) wait read_power_state env tr
    = (Raise RetryError, tr ++ failed_attempts more wait ++ [get_power_state]).
Proof.
  intros Hreads.
  induction more as [|more IH]; intros tr Hnever.
  - simpl. unfold read_power_state, call_returning. rewrite Hreads.
    specialize (Hnever 0%nat ltac:(lia)). simpl in Hnever.
    rewrite app_nil_r in Hnever.
    apply String.eqb_neq in Hnever. rewrite Hnever. reflexivity.
  - simpl. unfold read_power_state at 1, call_returning. rewrite Hreads.
    assert (Hfirst : power_state env tr <> target).
    { specialize (Hnever 0%nat ltac:(lia)). simpl in Hnever.
      rewrite app_nil_r in Hnever. exact Hnever. }
    apply String.eqb_neq in Hfirst. rewrite Hfirst. simpl negb. cbv iota.
    unfold bind, emit.
    rewrite (IH ((tr ++ [get_power_state]) ++ [sleep wait])).
    + rewrite <- !app_assoc. reflexivity.
    + intros k Hk. rewrite <- app_assoc. simpl. rewrite failed_attempts_snoc.
      apply Hnever. lia.
Qed.

(** C8: when the read function returns other values than the target on its
    first [N - 1] calls and the target on call [N], with [N] within the
    attempt budget, the poll returns the target after exactly [N] reads and
    [N - 1] sleeps, the last call being the successful read; when no read
    within the budget returns the target, the poll fails with [RetryError]
    after exactly as many reads as the budget allows. *)
Theorem poll_until_converges (env : Env) (target : string)
  (attempts wait : nat) (tr : trace) :
  reads_never_raise env ->
  (1 <= attempts)%nat ->
  (forall N,
      (1 <= N <= attempts)%nat ->
      (forall k, (k < N - 1)%nat ->
                 power_state env (tr ++ failed_attempts k wait) <> target) ->
      power_state env (tr ++ failed_attempts (N - 1) wait) = target ->
      exists calls,
        poll_until target attempts wait read_power_state env tr
        = (Ok target, tr ++ calls)
        /\ calls = failed_attempts (N - 1) wait ++ [get_power_state]
        /\ reads calls = N
        /\ sleeps calls = (N - 1)%nat)
  /\ ((forall k, (k < attempts)%nat ->
                 power_state env (tr ++ failed_attempts k wait) <> target) ->
      exists calls,
        poll_until target attempts wait read_power_state env tr
        = (Raise RetryError, tr ++ calls)
        /\ calls = failed_attempts (attempts - 1) wait ++ [get_power_state]
        /\ reads calls = attempts
        /\ sleeps calls = (attempts - 1)%nat).
Proof.
  intros Hreads Hbudget. split.
  - intros N [HN1 HN] Hbefore Hat.
    eexists. split; [|split; [reflexivity|]].
    + unfold poll_until, retrying.
      apply (retry_loop_success env target wait Hreads (N - 1)); [lia | exact Hbefore | exact Hat].
    + destruct (failed_attempts_counts (N - 1) wait) as [Hr Hs].
      rewrite Hr, Hs. split; lia.
  - intros Hnever.
    eexists. split; [|split; [reflexivity|]].
    + unfold poll_until, retrying.
      apply (retry_loop_exhausted env target wait Hreads).
      intros k Hk. apply Hnever. lia.
    + destruct (failed_attempts_counts (attempts - 1) wait) as [Hr Hs].
      rewrite Hr, Hs. split; lia.
Qed.

Lemma poll_until_converges_witness :
  exists calls,
    poll_until states.POWER_OFF 7 5000 read_power_state
      (World.sync_with World.no_failure 2) []
    = (Ok states.POWER_OFF, [] ++ calls)
    /\ reads calls = 3%nat /\ sleeps calls = 2%nat.
Proof.
  destruct (proj1 (poll_until_converges (World.sync_with World.no_failure 2)
                     states.POWER_OFF 7 5000 []
                     (fun tr => eq_refl) ltac:(lia))
              3%nat ltac:(lia))
    as (calls & Hrun & _ & Hreads & Hsleeps).
  - intros k Hk. destruct k as [|[|k]]; [discriminate | discriminate | lia].
  - reflexivity.
  - exists calls. repeat split; assumption.
Defined.

(** The driver's own poll, with the default budget of seven attempts, on a
    node that never powers off: seven reads, six sleeps of five seconds. *)
Example wait_until_powered_off_exhausted :
  _wait_until_powered_off (World.sync_with World.no_failure 100) []
  = (Raise RetryError,
     failed_attempts 6 5000 ++ [get_power_state]).
Proof. reflexivity. Qed.

(** ** Reboot and finish deploy *)

Lemma release_and_power_on_run (env : Env) (tr : trace) :
  release_and_power_on env tr =
    match raises env tr remove_provisioning_network with
    | Some e => (Raise e, tr ++ [remove_provisioning_network])
    | None =>
        let tr1 := tr ++ [remove_provisioning_network] in
        match raises env tr1 configure_tenant_networks with
        | Some e => (Raise e, tr1 ++ [configure_tenant_networks])
        | None =>
            let tr2 := tr1 ++ [configure_tenant_networks] in
            match raises env tr2 (node_power_action states.POWER_ON) with
            | Some e => (Raise e, tr2 ++ [node_power_action states.POWER_ON])
            | None => (Ok tt, tr2 ++ [node_power_action states.POWER_ON])
            end
        end
    end.
Proof.
  unfold release_and_power_on, bind, call.
  destruct (raises env tr remove_provisioning_network); [reflexivity|].
  destruct (raises env (tr ++ [remove_provisioning_network]) configure_tenant_networks);
    reflexivity.
Qed.


Lemma forced_power_off_then_on_run (env : Env) (tr : trace) :
  forced_power_off_then_on env tr =
    match raises env tr (node_power_action states.POWER_OFF) with
    | Some e => (Raise e, tr ++ [node_power_action states.POWER_OFF])
    | None => release_and_power_on env (tr ++ [node_power_action states.POWER_OFF])
    end.
Proof.
  unfold forced_power_off_then_on, bind, call.
  destruct (raises env tr (node_power_action states.POWER_OFF)); reflexivity.
Qed.



(** ** Deploy *)

Lemma executed_app (a b : trace) : executed (a ++ b) = executed a ++ executed b.
Proof. unfold executed. apply flat_map_app. Qed.

Lemma quiet_ret {A} (a : A) : quiet (ret a).
Proof. intros env tr. exists []. rewrite app_nil_r. split; reflexivity. Qed.

Lemma quiet_raise {A} (e : exn) : quiet (@raise A e).
Proof. intros env tr. exists []. rewrite app_nil_r. split; reflexivity. Qed.

Lemma quiet_lift {A} (o : outcome A) : quiet (lift o).
Proof. intros env tr. exists []. rewrite app_nil_r. split; reflexivity. Qed.

Lemma quiet_config : quiet config.
Proof. intros env tr. exists []. rewrite app_nil_r. split; reflexivity. Qed.

Lemma quiet_bind {A B} (m : M A) (k : A -> M B) :
  quiet m -> (forall a, quiet (k a)) -> quiet (bind m k).
Proof.
  intros Hm Hk env tr. unfold bind.
  destruct (Hm env tr) as (c1 & H1 & E1).
  destruct (m env tr) as [[a|e] tr1]; simpl in H1; subst tr1.
  - destruct (Hk a env (tr ++ c1)) as (c2 & H2 & E2).
    exists (c1 ++ c2). rewrite H2, app_assoc, executed_app, E1, E2.
    split; reflexivity.
  - exists c1. split; [reflexivity | exact E1].
Qed.

Lemma quiet_call (ev : event) :
  executed [ev] = [] -> quiet (call ev).
Proof.
  intros Hev env tr. exists [ev]. unfold call.
  destruct (raises env tr ev); split; try reflexivity; exact Hev.
Qed.

Lemma quiet_call_returning {A} (ev : event) (f : Env -> trace -> A) :
  executed [ev] = [] -> quiet (call_returning ev f).
Proof.
  intros Hev env tr. exists [ev]. unfold call_returning.
  destruct (raises env tr ev); split; try reflexivity; exact Hev.
Qed.

Lemma quiet_env {A} (f : Env -> M A) :
  (forall env, quiet (f env)) -> quiet (fun env => f env env).
Proof. intros H env tr. exact (H env env tr). Qed.

Lemma quiet_prepare_variables (n : node) : quiet (_prepare_variables n).
Proof.
  unfold _prepare_variables, _calculate_memory_req.
  apply quiet_bind; [apply quiet_config | intros conf].
  apply quiet_bind.
  { apply quiet_bind; [apply quiet_config | intros conf'].
    apply quiet_bind; [apply quiet_lift | intros image_source].
    apply quiet_bind; [apply quiet_call_returning; reflexivity | intros size].
    apply quiet_ret. }
  intros mem_req.
  apply quiet_bind.
  { destruct (truthy _); [|apply quiet_ret].
    destruct (Dict.get_default _ "checksum" VNone); try apply quiet_raise.
    destruct (negb _); apply quiet_ret. }
  intros image.
  apply quiet_bind.
  { destruct (truthy _); [|apply quiet_ret].
    destruct (Dict.get_default _ "configdrive" VNone); try apply quiet_raise.
    apply quiet_bind; [apply quiet_lift | intros parsed].
    destruct (_ || _); [apply quiet_ret|].
    apply quiet_bind; [apply quiet_call; reflexivity | intros _].
    apply quiet_ret. }
  intros variables.
  apply quiet_bind.
  { apply (quiet_env (fun env => lift (_parse_root_device_hints (LIB env) n))).
    intros env. apply quiet_lift. }
  intros hints. destruct hints; apply quiet_ret.
Qed.

(** What a run of [_ansible_deploy] in synchronous mode amounts to: the
    variables are assembled without running any command, and the playbook
    is run at most once, last, with no tag and no excluded tag. *)
Lemma ansible_deploy_run (n : node) (ip : string) (env : Env) (tr : trace) :
  use_ramdisk_callback (CONF env) = false ->
  exists calls,
    executed calls = []
    /\ match _ansible_deploy n ip env tr with
       | (Ok _, tr') =>
           exists variables variables' playbook user key,
             _prepare_variables n env tr = (Ok variables, tr ++ calls)
             /\ deploy_variables (LIB env) n variables = Ok variables'
             /\ _parse_ansible_driver_info n "deploy" = Ok (VStr playbook, user, key)
             /\ tr' = tr ++ calls
                      ++ [execute
                            (playbook_command (CONF env) playbook
                               (_prepare_extra_vars [(uuid n, ip, user, extra n)]
                                  variables')
                               key [] [])]
       | (Raise _, tr') =>
           tr' = tr ++ calls \/ exists command, tr' = tr ++ calls ++ [execute command]
       end.
Proof.
  intros Hsync.
  destruct (quiet_prepare_variables n env tr) as (calls & Hsnd & Hquiet).
  exists calls. split; [exact Hquiet|].
  unfold _ansible_deploy, bind at 1, config. rewrite Hsync.
  unfold bind at 1.
  destruct (_prepare_variables n env tr) as [[variables|e] tr1]; simpl in Hsnd; subst tr1;
    [|left; reflexivity].
  unfold deploy_variables, whole_disk_image.
  unfold _run_playbook, bind, config, try_except, call_returning, ret, raise, lift.
  destruct (truthy (Dict.get_default (driver_internal_info n) "is_whole_disk_image" VNone));
    cbv beta iota zeta delta [negb].
  - destruct (_parse_ansible_driver_info n "deploy") as [[[playbook user] key]|e];
      cbv beta iota zeta; [|left; reflexivity].
    destruct playbook as [| | |name| |]; cbv beta iota zeta; try (left; reflexivity).
    match goal with
    | |- context [raises env ?t ?ev] => destruct (raises env t ev) as [[]|]
    end; cbv beta iota zeta;
      try (right; eexists; rewrite <- app_assoc; reflexivity).
    exists variables, variables, name, user, key.
    rewrite <- app_assoc. repeat split; reflexivity.
  - destruct (_parse_partitioning_info (LIB env) n) as [partition_info|e];
      cbv beta iota zeta; [|left; reflexivity].
    simpl obind.
    destruct (_parse_ansible_driver_info n "deploy") as [[[playbook user] key]|e];
      cbv beta iota zeta; [|left; reflexivity].
    destruct playbook as [| | |name| |]; cbv beta iota zeta; try (left; reflexivity).
    match goal with
    | |- context [raises env ?t ?ev] => destruct (raises env t ev) as [[]|]
    end; cbv beta iota zeta;
      try (right; eexists; rewrite <- app_assoc; reflexivity).
    exists variables, (Dict.update variables partition_info), name, user, key.
    rewrite <- app_assoc. repeat split; reflexivity.
Qed.

Lemma get_node_ip_dhcp_trace (n : node) (env : Env) (tr : trace) :
  snd (_get_node_ip_dhcp n env tr) = tr ++ [get_ip_addresses].
Proof.
  unfold _get_node_ip_dhcp, bind, call_returning.
  destruct (raises env tr get_ip_addresses); [reflexivity|].
  destruct (ip_addresses env tr) as [|a [|b l]]; reflexivity.
Qed.

(** C1 as stated fails twice.  In synchronous mode the deploy playbook is
    run with no excluded tag: its command line has no [--skip-tags]
    argument, so the wait tag is not excluded (it is in callback mode).
    And a failed address lookup is not turned into a failed state: the
    exception leaves [deploy] and [set_failed_state] is never called. *)
Lemma deploy_synchronous_counterexample :
  (let run := deploy World.whole_disk_node (World.sync ["10.0.0.5"]) [] in
   fst run = Ok (Some states.DEPLOYDONE)
   /\ forallb (fun command => negb (existsb is_skip_tags command)) (executed (snd run))
      = true)
  /\ (let run := _ansible_deploy World.whole_disk_node "10.0.0.5" World.callback [] in
      map (existsb is_skip_tags) (executed (snd run)) = [true])
  /\ deploy World.whole_disk_node (World.sync []) []
     = (Raise (FailedToGetIPAddressOnPort "node-1"),
        [node_power_action states.REBOOT; get_ip_addresses]).
Proof. repeat split; reflexivity. Qed.

(** C1, amended: in synchronous mode, after the reboot, [deploy] first
    makes one DHCP lookup; a failed lookup (no address, several addresses)
    leaves [deploy] as its exception; with one address the variables are
    assembled without running any command and the deploy playbook is run
    once, with no tag excluded; when that succeeds [deploy]
    goes on to reboot-to-instance and, if this returns, returns the done
    state; when assembling the variables or running the playbook fails,
    [deploy] logs the failure, sets the failed state with log collection
    disabled, runs no further command and returns no state. *)
Theorem deploy_synchronous (n : node) (env : Env) (tr : trace) :
  use_ramdisk_callback (CONF env) = false ->
  raises env tr (node_power_action states.REBOOT) = None ->
  let tr0 := tr ++ [node_power_action states.REBOOT] in
  let tr1 := tr0 ++ [get_ip_addresses] in
  (forall e,
      fst (_get_node_ip_dhcp n env tr0) = Raise e ->
      deploy n env tr = (Raise e, tr1))
  /\ (forall ip,
         fst (_get_node_ip_dhcp n env tr0) = Ok ip ->
         exists calls,
           executed calls = []
           /\ match _ansible_deploy n ip env tr1 with
              | (Ok _, tr2) =>
                  (exists variables variables' playbook user key,
                      _prepare_variables n env tr1 = (Ok variables, tr1 ++ calls)
                      /\ deploy_variables (LIB env) n variables = Ok variables'
                      /\ _parse_ansible_driver_info n "deploy"
                         = Ok (VStr playbook, user, key)
                      /\ tr2 = tr1 ++ calls
                               ++ [execute
                                     (playbook_command (CONF env) playbook
                                        (_prepare_extra_vars
                                           [(uuid n, ip, user, extra n)] variables')
                                        key [] [])])
                  /\ deploy n env tr
                     = (reboot_to_instance n ;;; ret (Some states.DEPLOYDONE)) env tr2
                  /\ (forall tr3,
                         reboot_to_instance n env tr2 = (Ok tt, tr3) ->
                         deploy n env tr = (Ok (Some states.DEPLOYDONE), tr3))
              | (Raise e, tr2) =>
                  let error := MsgDeployFailed (uuid n) e in
                  (tr2 = tr1 ++ calls
                   \/ exists command, tr2 = tr1 ++ calls ++ [execute command])
                  /\ snd (deploy n env tr)
                     = tr2 ++ [LOG_exception error; set_failed_state error false]
                  /\ (List.length (executed (snd (deploy n env tr)))
                      <= List.length (executed tr) + 1)%nat
                  /\ (raises env (tr2 ++ [LOG_exception error])
                        (set_failed_state error false) = None ->
                      fst (deploy n env tr) = Ok None)
              end).
Proof.
  intros Hsync Hreboot tr0 tr1.
  assert (Hdeploy : deploy n env tr
                    = (ip_addr <- _get_node_ip_dhcp n ;;
                       try_except_else (_ansible_deploy n ip_addr)
                         (fun e =>
                            let error := MsgDeployFailed (uuid n) e in
                            emit (LOG_exception error) ;;;
                            call (set_failed_state error false) ;;;
                            ret None)
                         (fun _ =>
                            reboot_to_instance n ;;;
                            ret (Some states.DEPLOYDONE))) env tr0).
  { unfold deploy, bind at 1, config. unfold bind at 1, call.
    rewrite Hreboot, Hsync. reflexivity. }
  pose proof (get_node_ip_dhcp_trace n env tr0) as Htrace. fold tr1 in Htrace.
  split.
  - intros e He. rewrite Hdeploy. unfold bind at 1.
    destruct (_get_node_ip_dhcp n env tr0) as [o tr']. simpl in *. subst. reflexivity.
  - intros ip Hip.
    assert (Hrun : deploy n env tr
                   = try_except_else (_ansible_deploy n ip)
                       (fun e =>
                          let error := MsgDeployFailed (uuid n) e in
                          emit (LOG_exception error) ;;;
                          call (set_failed_state error false) ;;;
                          ret None)
                       (fun _ =>
                          reboot_to_instance n ;;;
                          ret (Some states.DEPLOYDONE)) env tr1).
    { rewrite Hdeploy. unfold bind at 1.
      destruct (_get_node_ip_dhcp n env tr0) as [o tr']. simpl in *. subst. reflexivity. }
    destruct (ansible_deploy_run n ip env tr1 Hsync) as (calls & Hquiet & Hshape).
    exists calls. split; [exact Hquiet|].
    unfold try_except_else in Hrun.
    destruct (_ansible_deploy n ip env tr1) as [[[]|e] tr2].
    + split; [exact Hshape|]. split; [exact Hrun|].
      intros tr3 Hreboot3. rewrite Hrun. unfold bind. rewrite Hreboot3. reflexivity.
    + cbv zeta. split; [exact Hshape|].
      assert (Hsnd : snd (deploy n env tr)
                     = tr2 ++ [LOG_exception (MsgDeployFailed (uuid n) e);
                               set_failed_state (MsgDeployFailed (uuid n) e) false]).
      { rewrite Hrun. unfold bind, emit, call, ret.
        match goal with
        | |- context [raises env ?t ?ev] => destruct (raises env t ev)
        end; simpl; rewrite <- app_assoc; reflexivity. }
      split; [exact Hsnd|]. split.
      * rewrite Hsnd. subst tr1 tr0.
        destruct Hshape as [-> | (command & ->)];
          rewrite !executed_app, ?Hquiet, !length_app; simpl; lia.
      * intros Hset. rewrite Hrun. unfold bind, emit, call, ret.
        rewrite Hset. reflexivity.
Qed.

Lemma deploy_synchronous_witness :
  exists tr3,
    deploy World.whole_disk_node (World.sync ["10.0.0.5"]) []
    = (Ok (Some states.DEPLOYDONE), tr3).
Proof.
  destruct (proj2 (deploy_synchronous World.whole_disk_node (World.sync ["10.0.0.5"]) []
                     eq_refl eq_refl) "10.0.0.5" eq_refl)
    as (calls & _ & H).
  cbv zeta in H.
  remember (_ansible_deploy World.whole_disk_node "10.0.0.5" (World.sync ["10.0.0.5"])
              (([] ++ [node_power_action states.REBOOT]) ++ [get_ip_addresses]))
    as run eqn:Hrun in H.
  vm_compute in Hrun. subst run.
  destruct H as (_ & _ & Hdone).
  eexists. apply Hdone. vm_compute. reflexivity.
Defined.

(** The whole synchronous deploy of a whole-disk image, call by call: no
    partition plan among the variables, the deploy playbook run once with no
    [--skip-tags], then the in-band shutdown and the reboot to the
    instance. *)
Example deploy_synchronous_trace :
  deploy World.whole_disk_node (World.sync ["10.0.0.5"]) []
  = (Ok (Some states.DEPLOYDONE),
     [node_power_action "rebooting";
      get_ip_addresses;
      download_size (VStr "glance://image");
      execute
        [Arg "env"; Arg "ANSIBLE_CONFIG=/etc/ironic/playbooks/ansible.cfg";
         Arg "ansible-playbook"; Arg "/etc/ironic/playbooks/deploy.yaml";
         Arg "-i"; Arg "/etc/ironic/playbooks/inventory";
         Arg "-e";
         ArgJson
           (VDict
              [("ironic",
                VDict
                  [("nodes",
                    VList [VDict [("name", VStr "node-1"); ("ip", VStr "10.0.0.5");
                                  ("user", VStr "ansible"); ("extra", VDict [])]]);
                   ("image",
                    VDict [("source", VStr "glance://image");
                           ("checksum", VStr "md5:abc123");
                           ("mem_req", VInt 11)])])]);
         ArgFmt "--private-key=" (VStr "/etc/ironic/id_rsa")];
      node_set_boot_device "disk" true;
      get_ip_addresses;
      execute
        [Arg "env"; Arg "ANSIBLE_CONFIG=/etc/ironic/playbooks/ansible.cfg";
         Arg "ansible-playbook"; Arg "/etc/ironic/playbooks/shutdown.yaml";
         Arg "-i"; Arg "/etc/ironic/playbooks/inventory";
         Arg "-e";
         ArgJson
           (VDict
              [("ironic",
                VDict
                  [("nodes",
                    VList [VDict [("name", VStr "node-1"); ("ip", VStr "10.0.0.5");
                                  ("user", VStr "ansible"); ("extra", VDict [])]])])]);
         ArgFmt "--private-key=" (VStr "/etc/ironic/id_rsa")];
      get_power_state;
      remove_provisioning_network;
      configure_tenant_networks;
      node_power_action "power on";
      process_event "done";
      clean_up_ramdisk]).
Proof. vm_compute. reflexivity. Qed.

(** ** Worked runs *)

(** A GPT plan with an ephemeral and a swap partition: boot loader first,
    root last and without the boot flag. *)
Example partition_plan_gpt :
  _parse_partitioning_info (Reference.lib (Ok VNone))
    {| uuid := "node-4"; driver_info := []; driver_internal_info := [];
       properties := []; extra := VNone;
       instance_info :=
         [("capabilities", VDict [("disk_label", VStr "gpt")]);
          ("root_mb", VInt 10240); ("swap_mb", VInt 512);
          ("ephemeral_mb", VInt 2048); ("ephemeral_format", VStr "ext4");
          ("preserve_ephemeral", VBool false)] |}
  = Ok [("partition_info",
         VDict
           [("label", VStr "gpt");
            ("ephemeral_format", VStr "ext4");
            ("preserve_ephemeral", VStr "no");
            ("partitions",
             VList
               [bios_grub_partition;
                VDict [("name", VStr "ephemeral"); ("size", VInt 2048);
                       ("unit", VStr "MiB"); ("format", VStr "ext4")];
                VDict [("name", VStr "swap"); ("size", VInt 512);
                       ("unit", VStr "MiB"); ("format", VStr "linux-swap")];
                VDict [("name", VStr "root"); ("size", VInt 10240);
                       ("unit", VStr "MiB")]])])].
Proof. reflexivity. Qed.

(** With no disk label the plan is an MSDOS one: [root] alone, bootable. *)
Example partition_plan_default :
  _parse_partitioning_info (Reference.lib (Ok VNone))
    {| uuid := "node-5"; driver_info := []; driver_internal_info := [];
       properties := []; extra := VNone;
       instance_info :=
         [("root_mb", VInt 10240); ("swap_mb", VInt 0); ("ephemeral_mb", VInt 0)] |}
  = Ok [("partition_info",
         VDict
           [("label", VStr "msdos");
            ("partitions",
             VList
               [VDict [("name", VStr "root"); ("size", VInt 10240);
                       ("unit", VStr "MiB");
                       ("flags", VDict [("boot", VStr "yes")])]])])].
Proof. reflexivity. Qed.

(** When powering the node on fails, the operation ends with the
    deployment error and the [done] event is never sent. *)
Example reboot_and_finish_deploy_power_on_fails :
  let run :=
    reboot_and_finish_deploy World.whole_disk_node
      (World.sync_with World.power_on_fails 0) [] in
  fst run
  = Raise (InstanceDeployFailure
             (ReasonRebootError "node-1" (CollaboratorError "IPMI timeout")))
  /\ existsb (fun ev => match ev with process_event _ => true | _ => false end)
       (snd run) = false.
Proof. split; vm_compute; reflexivity. Qed.

(** A callback URL with an IPv6 literal: the text before the first colon
    of the network location is only the start of the bracketed address. *)
Example get_node_ip_heartbeat_ipv6 :
  _get_node_ip_heartbeat
    {| uuid := "node-6"; driver_info := []; instance_info := []; properties := [];
       driver_internal_info := [("agent_url", VStr "http://[fe80::1]:9999")];
       extra := VNone |}
  = Ok "[fe80".
Proof. reflexivity. Qed.

(** * Further properties of the driver *)

(** ** Driver options *)

Lemma default_playbook_known (action : string) :
  action = "deploy" \/ action = "shutdown" \/ action = "clean" ->
  Dict.get DEFAULT_PLAYBOOKS action = Some (VStr (action ++ ".yaml")).
Proof. intros [-> | [-> | ->]]; reflexivity. Qed.

Lemma default_playbook_unknown (action : string) :
  action <> "deploy" -> action <> "shutdown" -> action <> "clean" ->
  Dict.get DEFAULT_PLAYBOOKS action = None.
Proof.
  intros Hd Hs Hc. unfold DEFAULT_PLAYBOOKS. simpl.
  destruct (String.eqb_spec "deploy" action) as [E|_]; [congruence|].
  destruct (String.eqb_spec "shutdown" action) as [E|_]; [congruence|].
  destruct (String.eqb_spec "clean" action) as [E|_]; [congruence|].
  reflexivity.
Qed.

(** The playbook of an action: a playbook set on the node wins over the
    default, and when it is set but empty the default is not used and
    [PlaybookNotFound] is raised; with nothing set, the three known actions
    get their default [<action>.yaml] and any other action raises
    [PlaybookNotFound].  The user defaults to [ansible], the key to
    [None]. *)
Theorem parse_ansible_driver_info_playbook (n : node) (action : string) :
  let user := Dict.get_default (driver_info n) "ansible_deploy_username" (VStr "ansible") in
  let key := Dict.get_default (driver_info n) "ansible_deploy_key_file" VNone in
  let result := _parse_ansible_driver_info n action in
  (forall v,
      Dict.get (driver_info n) ("ansible_" ++ action ++ "_playbook")%string = Some v ->
      result = if truthy v then Ok (v, user, key) else Raise (PlaybookNotFound action))
  /\ (Dict.get (driver_info n) ("ansible_" ++ action ++ "_playbook")%string = None ->
      (action = "deploy" \/ action = "shutdown" \/ action = "clean" ->
       result = Ok (VStr (action ++ ".yaml"), user, key))
      /\ (action <> "deploy" -> action <> "shutdown" -> action <> "clean" ->
          result = Raise (PlaybookNotFound action))).
Proof.
  intros user key result. subst result user key.
  unfold _parse_ansible_driver_info, Dict.get_default.
  split.
  - intros v ->. destruct (truthy v); reflexivity.
  - intros ->. split.
    + intros Hknown.
      rewrite (default_playbook_known action Hknown).
      destruct Hknown as [-> | [-> | ->]]; reflexivity.
    + intros Hd Hs Hc.
      rewrite (default_playbook_unknown action Hd Hs Hc). reflexivity.
Qed.

Lemma parse_ansible_driver_info_playbook_witness :
  _parse_ansible_driver_info
    {| uuid := "node-1"; driver_info := [("ansible_deploy_username", VStr "root")];
       driver_internal_info := []; instance_info := []; properties := [];
       extra := VNone |} "shutdown"
  = Ok (VStr "shutdown.yaml", VStr "root", VNone).
Proof.
  refine (proj1 (proj2 (parse_ansible_driver_info_playbook
                          {| uuid := "node-1";
                             driver_info := [("ansible_deploy_username", VStr "root")];
                             driver_internal_info := []; instance_info := [];
                             properties := []; extra := VNone |} "shutdown") _) _).
  - reflexivity.
  - right; left; reflexivity.
Defined.

(** ** Dictionaries, continued *)

Lemma dict_get_set (d : dict) (k k' : string) (v : value) :
  Dict.get (Dict.set d k v) k' = if k =? k' then Some v else Dict.get d k'.
Proof.
  induction d as [|[k0 v0] d IH]; simpl.
  - reflexivity.
  - destruct (String.eqb_spec k0 k) as [->|Hne]; simpl.
    + destruct (String.eqb_spec k k'); reflexivity.
    + rewrite IH.
      destruct (String.eqb_spec k0 k') as [->|_]; [|reflexivity].
      destruct (String.eqb_spec k k') as [->|_]; [congruence | reflexivity].
Qed.

Lemma dict_get_none_keys (d : dict) (k : string) :
  ~ In k (Dict.keys d) -> Dict.get d k = None.
Proof.
  induction d as [|[k0 v0] d IH]; simpl; intros H; [reflexivity|].
  destruct (String.eqb_spec k0 k) as [->|_]; [exfalso; apply H; left; reflexivity|].
  apply IH. intros Hin. apply H. right. exact Hin.
Qed.

Lemma dict_update_get (other : dict) :
  forall d k,
    NoDup (Dict.keys other) ->
    Dict.get (Dict.update d other) k
    = match Dict.get other k with
      | Some v => Some v
      | None => Dict.get d k
      end.
Proof.
  unfold Dict.update.
  induction other as [|[k0 v0] other IH]; intros d k Hnd; simpl; [reflexivity|].
  inversion Hnd as [|? ? Hk0 Hnd']; subst.
  rewrite (IH _ _ Hnd'), dict_get_set.
  destruct (String.eqb_spec k0 k) as [->|_]; [|reflexivity].
  rewrite (dict_get_none_keys _ _ Hk0). reflexivity.
Qed.

(** ** Extra variables *)

(** The extra variables bind [nodes] to one descriptor per host, in order,
    and every variable to its value; a variable named [nodes] replaces the
    host list. *)
Theorem prepare_extra_vars_lookup (host_list : list (string * string * value * value))
  (variables : dict) (k : string) :
  distinct (Dict.keys variables) = true ->
  Dict.get (_prepare_extra_vars host_list variables) k
  = match Dict.get variables k with
    | Some v => Some v
    | None =>
        if k =? "nodes" then Some (VList (map host_descriptor host_list)) else None
    end.
Proof.
  intros Hdistinct. apply distinct_NoDup in Hdistinct.
  change (_prepare_extra_vars host_list variables)
    with (match variables with
          | _ :: _ =>
              Dict.update [("nodes", VList (map host_descriptor host_list))] variables
          | [] => [("nodes", VList (map host_descriptor host_list))]
          end).
  destruct variables as [|kv variables].
  - simpl. rewrite String.eqb_sym. reflexivity.
  - rewrite (dict_update_get _ _ _ Hdistinct).
    destruct (Dict.get (kv :: variables) k); [reflexivity|].
    simpl. rewrite String.eqb_sym. reflexivity.
Qed.

Lemma prepare_extra_vars_lookup_witness :
  Dict.get (_prepare_extra_vars [("node-1", "10.0.0.5", VStr "ansible", VNone)]
              [("image", VDict [])]) "nodes"
  = Some (VList [host_descriptor ("node-1", "10.0.0.5", VStr "ansible", VNone)]).
Proof.
  apply (prepare_extra_vars_lookup [("node-1", "10.0.0.5", VStr "ansible", VNone)]
           [("image", VDict [])] "nodes").
  reflexivity.
Defined.

(** ** Root-device hints: errors *)

Lemma convert_hints_bad_number (lib : Lib) (items : dict) :
  existsb (bad_number lib) items = true ->
  forall root_device_hints advanced,
    exists text,
      convert_hints lib items root_device_hints advanced = Raise (ValueError text).
Proof.
  induction items as [|[hint v] items IH]; simpl; intros Hbad rdh adv; [discriminate|].
  unfold bad_number at 1 in Hbad. simpl snd in Hbad.
  destruct v as [| b | z | s | l | d]; simpl in Hbad; try (apply IH; exact Hbad).
  destruct (startswith "== " s); simpl in Hbad.
  - destruct (int_of_str lib (drop 3 s)) as [i|].
    + apply IH. exact Hbad.
    + eexists. reflexivity.
  - destruct (startswith "s== " s); apply IH; exact Hbad.
Qed.

(** The three ways the hint parse ends early: with no hints set (absent,
    [None] or empty) the result is the empty mapping whatever the library
    parser would do; a [ValueError] of the library parser becomes
    [InvalidParameterValue]; and a [==] hint whose payload [int] cannot
    read raises a bare [ValueError], not [InvalidParameterValue], also when
    hints with unsupported operators are present. *)
Theorem parse_root_device_hints_errors (lib : Lib) (n : node) :
  let root_device := Dict.get_default (properties n) "root_device" VNone in
  (truthy root_device = false -> _parse_root_device_hints lib n = Ok [])
  /\ (truthy root_device = true ->
      forall text,
        irlib_parse_root_device_hints lib root_device = inl text ->
        _parse_root_device_hints lib n
        = Raise (InvalidParameterValue (HintsValidationFailed (uuid n) text)))
  /\ (truthy root_device = true ->
      forall parsed,
        irlib_parse_root_device_hints lib root_device = inr parsed ->
        existsb (bad_number lib) parsed = true ->
        exists text, _parse_root_device_hints lib n = Raise (ValueError text)).
Proof.
  intros root_device. unfold _parse_root_device_hints. fold root_device.
  split; [|split].
  - intros ->. reflexivity.
  - intros -> text ->. reflexivity.
  - intros -> parsed -> Hbad. simpl negb. cbv iota.
    destruct (convert_hints_bad_number lib parsed Hbad [] []) as (text & ->).
    exists text. reflexivity.
Qed.

Lemma parse_root_device_hints_errors_witness :
  exists text,
    _parse_root_device_hints (Reference.lib (Ok VNone))
      {| uuid := "node-7"; driver_info := []; driver_internal_info := [];
         instance_info := []; extra := VNone;
         properties :=
           [("root_device",
             VDict [("size", VStr ">= 100"); ("model", VStr "== ssd")])] |}
    = Raise (ValueError text).
Proof.
  exact (proj2 (proj2 (parse_root_device_hints_errors (Reference.lib (Ok VNone))
                         {| uuid := "node-7"; driver_info := []; driver_internal_info := [];
                            instance_info := []; extra := VNone;
                            properties :=
                              [("root_device",
                                VDict [("size", VStr ">= 100");
                                       ("model", VStr "== ssd")])] |}))
           eq_refl [("size", VStr ">= 100"); ("model", VStr "== ssd")] eq_refl eq_refl).
Defined.

(** ** Partition plan: names, units and optional parts *)

Lemma partition_plan_names_distinct_aux (lib : Lib) (n : node) :
  match _parse_partitioning_info lib n with
  | Raise _ => True
  | Ok vars =>
      exists i_info partitions,
        vars = [("partition_info", VDict i_info)]
        /\ Dict.get i_info "partitions" = Some (VList partitions)
        /\ (1 <= List.length partitions <= 5)%nat
        /\ NoDup (map (fun p => partition_field p "name") partitions)
        /\ Forall (fun p => partition_field p "unit" = Some (VStr "MiB")) partitions
  end.
Proof.
  unfold _parse_partitioning_info.
  cbv beta iota delta [obind getitem Dict.get_default].
  destruct (is_str (py_or (get_disk_label lib n) (VStr "msdos")) "gpt");
    destruct (is_str (py_or (get_disk_label lib n) (VStr "msdos")) "msdos").
  all: repeat step_partitioning.
  all: try exact I.
  all: do 2 eexists.
  all: do 2 (split; [reflexivity|]).
  all: simpl app.
  all: split; [simpl; lia|].
  all: split; [|repeat constructor].
  all: repeat constructor; simpl; intuition discriminate.
Qed.

(** Every plan has between one and five partitions, all sized in MiB, with
    pairwise distinct names. *)
Theorem partition_plan_names_distinct (lib : Lib) (n : node) (vars : dict) :
  _parse_partitioning_info lib n = Ok vars ->
  exists i_info partitions,
    vars = [("partition_info", VDict i_info)]
    /\ Dict.get i_info "partitions" = Some (VList partitions)
    /\ (1 <= List.length partitions <= 5)%nat
    /\ NoDup (map (fun p => partition_field p "name") partitions)
    /\ Forall (fun p => partition_field p "unit" = Some (VStr "MiB")) partitions.
Proof.
  intros H. pose proof (partition_plan_names_distinct_aux lib n) as Haux.
  rewrite H in Haux. exact Haux.
Qed.

Lemma partition_plan_names_distinct_witness :
  exists i_info partitions,
    Dict.get i_info "partitions" = Some (VList partitions)
    /\ NoDup (map (fun p => partition_field p "name") partitions).
Proof.
  destruct (partition_plan_names_distinct (Reference.lib (Ok VNone))
              {| uuid := "node-5"; driver_info := []; driver_internal_info := [];
                 properties := []; extra := VNone;
                 instance_info :=
                   [("root_mb", VInt 10240); ("swap_mb", VInt 512);
                    ("ephemeral_mb", VInt 0)] |}
              _ eq_refl)
    as (i_info & partitions & _ & Hget & _ & Hnames & _).
  exists i_info, partitions. split; assumption.
Defined.

Lemma partition_plan_optional_parts_aux (lib : Lib) (n : node) :
  let info := instance_info n in
  let ephemeral_mb := Dict.get_default info "ephemeral_mb" VNone in
  let ephemeral_format := Dict.get_default info "ephemeral_format" VNone in
  let preserve_ephemeral := Dict.get_default info "preserve_ephemeral" VNone in
  let swap_mb := Dict.get_default info "swap_mb" VNone in
  let configdrive := Dict.get_default info "configdrive" VNone in
  match _parse_partitioning_info lib n with
  | Raise _ => True
  | Ok vars =>
      exists i_info partitions root,
        vars = [("partition_info", VDict i_info)]
        /\ Dict.get i_info "partitions" = Some (VList partitions)
        /\ find_partition "ephemeral" partitions
           = (if truthy ephemeral_mb
              then Some (VDict [("name", VStr "ephemeral"); ("size", ephemeral_mb);
                                ("unit", VStr "MiB"); ("format", ephemeral_format)])
              else None)
        /\ Dict.get i_info "ephemeral_format"
           = (if truthy ephemeral_mb then Some ephemeral_format else None)
        /\ Dict.get i_info "preserve_ephemeral"
           = (if truthy ephemeral_mb
              then Some (VStr (if truthy preserve_ephemeral then "yes" else "no"))
              else None)
        /\ find_partition "swap" partitions
           = (if truthy swap_mb
              then Some (VDict [("name", VStr "swap"); ("size", swap_mb);
                                ("unit", VStr "MiB"); ("format", VStr "linux-swap")])
              else None)
        /\ find_partition "configdrive" partitions
           = (if truthy configdrive
              then Some (VDict [("name", VStr "configdrive"); ("size", VInt 64);
                                ("unit", VStr "MiB"); ("format", VStr "fat32")])
              else None)
        /\ find_partition "root" partitions = Some (VDict root)
        /\ Dict.get root "size" = Dict.get info "root_mb"
  end.
Proof.
  unfold _parse_partitioning_info.
  cbv beta iota zeta delta [obind getitem Dict.get_default].
  destruct (is_str (py_or (get_disk_label lib n) (VStr "msdos")) "gpt");
    destruct (is_str (py_or (get_disk_label lib n) (VStr "msdos")) "msdos").
  all: repeat step_partitioning.
  all: try exact I.
  all: do 3 eexists.
  all: repeat (split; [reflexivity|]).
  all: reflexivity.
Qed.

(** The optional parts of a plan follow the instance configuration: the
    ephemeral partition, its format and the [preserve_ephemeral] answer
    ([yes] or [no]) are there exactly when [ephemeral_mb] is set and not
    zero, the swap partition exactly when [swap_mb] is, the 64 MiB [fat32]
    config-drive partition exactly when a config drive is given; [root] has
    the size [root_mb]. *)
Theorem partition_plan_optional_parts (lib : Lib) (n : node) (vars : dict) :
  _parse_partitioning_info lib n = Ok vars ->
  let info := instance_info n in
  let ephemeral_mb := Dict.get_default info "ephemeral_mb" VNone in
  let ephemeral_format := Dict.get_default info "ephemeral_format" VNone in
  let preserve_ephemeral := Dict.get_default info "preserve_ephemeral" VNone in
  let swap_mb := Dict.get_default info "swap_mb" VNone in
  let configdrive := Dict.get_default info "configdrive" VNone in
  exists i_info partitions root,
    vars = [("partition_info", VDict i_info)]
    /\ Dict.get i_info "partitions" = Some (VList partitions)
    /\ find_partition "ephemeral" partitions
       = (if truthy ephemeral_mb
          then Some (VDict [("name", VStr "ephemeral"); ("size", ephemeral_mb);
                            ("unit", VStr "MiB"); ("format", ephemeral_format)])
          else None)
    /\ Dict.get i_info "ephemeral_format"
       = (if truthy ephemeral_mb then Some ephemeral_format else None)
    /\ Dict.get i_info "preserve_ephemeral"
       = (if truthy ephemeral_mb
          then Some (VStr (if truthy preserve_ephemeral then "yes" else "no"))
          else None)
    /\ find_partition "swap" partitions
       = (if truthy swap_mb
          then Some (VDict [("name", VStr "swap"); ("size", swap_mb);
                            ("unit", VStr "MiB"); ("format", VStr "linux-swap")])
          else None)
    /\ find_partition "configdrive" partitions
       = (if truthy configdrive
          then Some (VDict [("name", VStr "configdrive"); ("size", VInt 64);
                            ("unit", VStr "MiB"); ("format", VStr "fat32")])
          else None)
    /\ find_partition "root" partitions = Some (VDict root)
    /\ Dict.get root "size" = Dict.get info "root_mb".
Proof.
  intros H. pose proof (partition_plan_optional_parts_aux lib n) as Haux.
  cbv zeta in Haux. rewrite H in Haux. exact Haux.
Qed.

Lemma partition_plan_optional_parts_witness :
  exists i_info partitions,
    Dict.get i_info "partitions" = Some (VList partitions)
    /\ find_partition "swap" partitions
       = Some (VDict [("name", VStr "swap"); ("size", VInt 512);
                      ("unit", VStr "MiB"); ("format", VStr "linux-swap")])
    /\ find_partition "ephemeral" partitions = None.
Proof.
  destruct (partition_plan_optional_parts (Reference.lib (Ok VNone))
              {| uuid := "node-5"; driver_info := []; driver_internal_info := [];
                 properties := []; extra := VNone;
                 instance_info :=
                   [("root_mb", VInt 10240); ("swap_mb", VInt 512);
                    ("ephemeral_mb", VInt 0)] |}
              _ eq_refl)
    as (i_info & partitions & root & _ & Hget & Heph & _ & _ & Hswap & _).
  exists i_info, partitions. repeat split; assumption.
Defined.

(** ** Built clean steps: identity, priority and schema *)

Lemma subscript_ok (params : value) (k : string) (v : value) :
  subscript params k = Ok v ->
  exists d, params = VDict d /\ Dict.get d k = Some v.
Proof.
  unfold subscript, getitem.
  destruct params as [| | | | |d]; try discriminate.
  destruct (Dict.get d k) as [v'|] eqn:E; [|discriminate].
  intros H. injection H as ->. exists d. split; [reflexivity | exact E].
Qed.

(** Whatever relates every built step to its declaration relates, in
    order, the returned steps to the declarations that pass the filter. *)
Lemma build_steps_related (R : value -> value -> Prop) (items : list value)
  (interface : option string) (override : dict) :
  (forall d name clean_if step,
      Dict.get d "name" = Some name ->
      Dict.get d "interface" = Some clean_if ->
      In (VDict d) items ->
      make_step (VDict d) name clean_if override = Ok step ->
      R (VDict d) step) ->
  forall acc result,
    build_steps items interface override acc = Ok result ->
    exists built,
      result = acc ++ built
      /\ Forall2 R (filter (selected interface) items) built.
Proof.
  induction items as [|params items IH]; intros HR acc result H; simpl in H.
  - injection H as <-. exists []. rewrite app_nil_r. split; constructor.
  - destruct (subscript params "name") as [name|] eqn:Hname; simpl in H;
      [|discriminate H].
    destruct (subscript params "interface") as [clean_if|] eqn:Hif; simpl in H;
      [|discriminate H].
    destruct (subscript_ok _ _ _ Hname) as (d & -> & Hdname).
    destruct (subscript_ok _ _ _ Hif) as (d' & Hd' & Hdif).
    injection Hd' as <-.
    assert (HR' : forall d0 name0 clean_if0 step,
               Dict.get d0 "name" = Some name0 ->
               Dict.get d0 "interface" = Some clean_if0 ->
               In (VDict d0) items ->
               make_step (VDict d0) name0 clean_if0 override = Ok step ->
               R (VDict d0) step).
    { intros d0 name0 clean_if0 step H1 H2 H3 H4.
      exact (HR d0 name0 clean_if0 step H1 H2 (or_intror H3) H4). }
    simpl filter. unfold selected at 1, Dict.get_default. simpl declaration.
    rewrite Hdif.
    destruct (filtered_out interface clean_if); simpl negb; cbv iota.
    + exact (IH HR' _ _ H).
    + destruct (make_step (VDict d) name clean_if override) as [step|] eqn:Hstep;
        simpl in H; [|discriminate H].
      destruct (IH HR' _ _ H) as (built & -> & Hbuilt).
      exists (step :: built). rewrite <- app_assoc. split; [reflexivity|].
      constructor; [|exact Hbuilt].
      exact (HR d name clean_if step Hdname Hdif (or_introl eq_refl) Hstep).
Qed.

Lemma make_step_describes (d : dict) (name clean_if : value) (override : dict)
  (step : value) :
  Dict.get d "name" = Some name ->
  Dict.get d "interface" = Some clean_if ->
  make_step (VDict d) name clean_if override = Ok step ->
  describes override (VDict d) step.
Proof.
  intros Hname Hif. unfold make_step. simpl as_dict. simpl obind.
  destruct (as_dict (Dict.get_default d "args" (VDict []))) as [items|]; simpl;
    [|discriminate].
  destruct (pop_values items items []) as [[argsinfo args]|]; simpl; [|discriminate].
  intros H. injection H as <-.
  unfold describes, resolved_priority, step_name, Dict.get_default.
  simpl declaration. rewrite Hname, Hif.
  split; [reflexivity|]. split; [reflexivity|].
  destruct (lookup_name override name) as [[| | | | |]|]; reflexivity.
Qed.

(** Each returned step carries the name and the interface of its
    declaration, and as priority the override given for its name, unless
    that is absent or [None], then the declared priority, and zero when none
    is declared; the returned steps are, in order, those of the declarations
    that pass the interface filter. *)
Theorem clean_steps_identity_and_priority (conf : Conf) (lib : Lib) (n : node)
  (interface : option string) (override_priorities : option dict)
  (doc : value) (items result : list value) :
  holds_document conf lib n doc ->
  iterate doc = Ok items ->
  _get_clean_steps conf lib n interface override_priorities = Ok result ->
  Forall2 (describes (override_or_empty override_priorities))
    (filter (selected interface) items) result.
Proof.
  intros Hdoc Hitems Hload.
  rewrite (get_clean_steps_of_document _ _ _ _ _ _ Hdoc) in Hload.
  destruct (_validate_clean_steps doc (uuid n)); simpl in Hload; [|discriminate Hload].
  rewrite Hitems in Hload. simpl in Hload.
  destruct (build_steps_related (describes (override_or_empty override_priorities))
              items interface _
              (fun d name clean_if step H1 H2 _ H4 =>
                 make_step_describes d name clean_if _ step H1 H2 H4)
              [] result Hload)
    as (built & -> & Hbuilt).
  exact Hbuilt.
Qed.

Lemma clean_steps_identity_and_priority_witness :
  exists step,
    _get_clean_steps (Reference.conf true) (Reference.lib (Ok Documents.sound))
      Reference.bare_node (Some "deploy") (Some [("erase_devices", VInt 20)])
    = Ok [step]
    /\ Dict.get (declaration step) "priority" = Some (VInt 20).
Proof.
  pose proof (clean_steps_identity_and_priority (Reference.conf true)
                (Reference.lib (Ok Documents.sound)) Reference.bare_node
                (Some "deploy") (Some [("erase_devices", VInt 20)])
                Documents.sound _ _
                (ex_intro _ _ (conj eq_refl eq_refl)) eq_refl eq_refl) as H.
  vm_compute filter in H.
  eexists. split; [reflexivity|].
  inversion H as [|params step l l' Hdescribes Hrest].
  exact (proj2 (proj2 Hdescribes)).
Defined.








(** ** The deploy interface's clean steps *)

Lemma build_steps_interface (items : list value) (i : string) (override : dict) :
  forall acc result,
    build_steps items (Some i) override acc = Ok result ->
    Forall (fun step => has_interface i step = true) acc ->
    Forall (fun step => has_interface i step = true) result.
Proof.
  induction items as [|params items IH]; simpl; intros acc result H Hacc.
  - injection H as <-. exact Hacc.
  - destruct (subscript params "name") as [name|]; simpl in H; [|discriminate H].
    destruct (subscript params "interface") as [clean_if|]; simpl in H;
      [|discriminate H].
    destruct (is_str clean_if i) eqn:Hif; simpl in H.
    + destruct (make_step params name clean_if override) as [step|] eqn:Hstep;
        simpl in H; [|discriminate H].
      apply (IH _ _ H). apply Forall_app. split; [exact Hacc|].
      constructor; [|constructor].
      unfold make_step in Hstep.
      destruct (as_dict params); simpl in Hstep; [|discriminate Hstep].
      destruct (as_dict (Dict.get_default a "args" (VDict []))); simpl in Hstep;
        [|discriminate Hstep].
      destruct (pop_values a0 a0 []) as [[argsinfo args]|]; simpl in Hstep;
        [|discriminate Hstep].
      injection Hstep as <-. exact Hif.
    + exact (IH _ _ H Hacc).
Qed.

(** The steps the deploy interface offers for cleaning all declare the
    [deploy] interface, and a step named [erase_devices] or
    [erase_devices_metadata] has the configured priority when one is
    configured. *)
Theorem get_clean_steps_deploy_interface (conf : Conf) (lib : Lib) (n : node)
  (erase_devices_priority erase_devices_metadata_priority : value)
  (doc : value) (result : list value) :
  holds_document conf lib n doc ->
  get_clean_steps conf lib n erase_devices_priority erase_devices_metadata_priority
  = Ok result ->
  Forall (fun step =>
            has_interface "deploy" step = true
            /\ (Dict.get (declaration step) "step" = Some (VStr "erase_devices") ->
                erase_devices_priority <> VNone ->
                Dict.get (declaration step) "priority" = Some erase_devices_priority)
            /\ (Dict.get (declaration step) "step"
                = Some (VStr "erase_devices_metadata") ->
                erase_devices_metadata_priority <> VNone ->
                Dict.get (declaration step) "priority"
                = Some erase_devices_metadata_priority))
    result.
Proof.
  intros Hdoc Hload. unfold get_clean_steps in Hload.
  pose proof Hload as Hrun.
  rewrite (get_clean_steps_of_document _ _ _ _ _ _ Hdoc) in Hrun.
  destruct (_validate_clean_steps doc (uuid n)); simpl in Hrun; [|discriminate Hrun].
  destruct (iterate doc) as [items|] eqn:Hitems; simpl in Hrun; [|discriminate Hrun].
  pose proof (build_steps_interface items "deploy" _ [] result Hrun (Forall_nil _))
    as Hif.
  destruct (build_steps_related
              (describes [("erase_devices", erase_devices_priority);
                          ("erase_devices_metadata", erase_devices_metadata_priority)])
              items (Some "deploy") _
              (fun d name clean_if step H1 H2 _ H4 =>
                 make_step_describes d name clean_if _ step H1 H2 H4)
              [] result Hrun)
    as (built & Hbuilt & Hdescribes).
  simpl in Hbuilt. subst built.
  rewrite Forall_forall in Hif. apply Forall_forall. intros step Hin.
  split; [exact (Hif step Hin)|].
  assert (Hdecl : exists params,
             describes [("erase_devices", erase_devices_priority);
                        ("erase_devices_metadata", erase_devices_metadata_priority)]
               params step).
  { clear - Hdescribes Hin.
    induction Hdescribes as [|p s ps ss Hps _ IH]; [destruct Hin|].
    destruct Hin as [<- | Hin]; [exists p; exact Hps | exact (IH Hin)]. }
  destruct Hdecl as (params & Hname & _ & Hpriority).
  unfold resolved_priority, step_name, Dict.get_default in Hpriority.
  split; intros Hstep Hset; rewrite Hstep in Hname; rewrite <- Hname in Hpriority;
    rewrite Hpriority; simpl.
  - destruct erase_devices_priority; try reflexivity. congruence.
  - destruct erase_devices_metadata_priority; try reflexivity. congruence.
Qed.

Lemma get_clean_steps_deploy_interface_witness :
  exists result,
    get_clean_steps (Reference.conf true) (Reference.lib (Ok Documents.sound))
      Reference.bare_node (VInt 30) VNone = Ok result
    /\ Forall (fun step => has_interface "deploy" step = true) result.
Proof.
  eexists. split; [reflexivity|].
  pose proof (get_clean_steps_deploy_interface (Reference.conf true)
                (Reference.lib (Ok Documents.sound)) Reference.bare_node
                (VInt 30) VNone Documents.sound _
                (ex_intro _ _ (conj eq_refl eq_refl)) eq_refl) as H.
  apply (Forall_impl _ (fun step Hstep => proj1 Hstep) H).
Defined.

(** ** What a finished reboot has done *)

(** Whenever [reboot_and_finish_deploy] returns, its last four calls are
    the release of the provisioning network, the attachment of the tenant
    networks, the power-on and the [done] event, in this order and none of
    them failing; and the network was released only once the power was
    settled: either the in-band shutdown had succeeded, or the call just
    before was a forced power-off that succeeded. *)
Theorem reboot_and_finish_deploy_returns (n : node) (env : Env) (tr tr' : trace) :
  reboot_and_finish_deploy n env tr = (Ok tt, tr') ->
  exists settled,
    tr' = settled ++ [remove_provisioning_network; configure_tenant_networks;
                      node_power_action states.POWER_ON; process_event "done"]
    /\ raises env settled remove_provisioning_network = None
    /\ raises env (settled ++ [remove_provisioning_network]) configure_tenant_networks
       = None
    /\ raises env (settled ++ [remove_provisioning_network; configure_tenant_networks])
         (node_power_action states.POWER_ON) = None
    /\ (oob_power_off n = false /\ soft_power_off n env tr = (Ok tt, settled)
        \/ exists before,
            settled = before ++ [node_power_action states.POWER_OFF]
            /\ raises env before (node_power_action states.POWER_OFF) = None).
Proof.
  intros H.
  unfold reboot_and_finish_deploy, bind at 1, try_except in H.
  destruct (power_off_and_on n env tr) as [[[]|e] trb] eqn:Hblock.
  2: { unfold raise_deployment_error, bind, emit, raise in H. discriminate H. }
  unfold call in H.
  destruct (raises env trb (process_event "done")); [discriminate H|].
  injection H as <-.
  assert (Hend : forall settled,
             release_and_power_on env settled = (Ok tt, trb) ->
             trb = settled ++ [remove_provisioning_network; configure_tenant_networks;
                               node_power_action states.POWER_ON]
             /\ raises env settled remove_provisioning_network = None
             /\ raises env (settled ++ [remove_provisioning_network])
                  configure_tenant_networks = None
             /\ raises env (settled ++ [remove_provisioning_network;
                                       configure_tenant_networks])
                  (node_power_action states.POWER_ON) = None).
  { intros settled Hrel. rewrite release_and_power_on_run in Hrel. cbv zeta in Hrel.
    destruct (raises env settled remove_provisioning_network); [discriminate Hrel|].
    destruct (raises env (settled ++ [remove_provisioning_network])
                configure_tenant_networks) eqn:E2; [discriminate Hrel|].
    rewrite <- app_assoc in Hrel. simpl app in Hrel.
    destruct (raises env (settled ++ [remove_provisioning_network;
                                      configure_tenant_networks])
                (node_power_action states.POWER_ON)) eqn:E3; [discriminate Hrel|].
    injection Hrel as <-. rewrite <- app_assoc. simpl app.
    repeat split; reflexivity. }
  assert (Hforced : forall before,
             forced_power_off_then_on env before = (Ok tt, trb) ->
             exists settled,
               settled = before ++ [node_power_action states.POWER_OFF]
               /\ raises env before (node_power_action states.POWER_OFF) = None
               /\ release_and_power_on env settled = (Ok tt, trb)).
  { intros before Hf. rewrite forced_power_off_then_on_run in Hf.
    destruct (raises env before (node_power_action states.POWER_OFF));
      [discriminate Hf|].
    eexists. repeat split. exact Hf. }
  unfold power_off_and_on, bind at 1, config in Hblock.
  destruct (oob_power_off n) eqn:Hoob; cbn [negb] in Hblock.
  - destruct (Hforced tr Hblock) as (settled & Hs & Hoff & Hrel).
    destruct (Hend settled Hrel) as (-> & H1 & H2 & H3).
    exists settled. rewrite <- app_assoc. simpl app.
    repeat split; try assumption.
    right. exists tr. split; assumption.
  - unfold bind at 1, try_except in Hblock.
    destruct (soft_power_off n env tr) as [[[]|e] ts] eqn:Hsoft.
    + destruct (Hend ts Hblock) as (-> & H1 & H2 & H3).
      exists ts. rewrite <- app_assoc. simpl app.
      repeat split; try assumption.
      left. split; reflexivity.
    + unfold bind at 1, emit in Hblock.
      destruct (Hforced (ts ++ [LOG_warning (soft_power_off_warning (CONF env) n e)]))
        as (settled & Hs & Hoff & Hrel).
      { exact Hblock. }
      destruct (Hend settled Hrel) as (-> & H1 & H2 & H3).
      exists settled. rewrite <- app_assoc. simpl app.
      repeat split; try assumption.
      right. eexists. split; [exact Hs | exact Hoff].
Qed.

Lemma reboot_and_finish_deploy_returns_witness :
  let env := World.sync_with World.tool_fails 0 in
  let n := World.whole_disk_node in
  exists before,
    snd (reboot_and_finish_deploy n env [])
    = before ++ [node_power_action states.POWER_OFF; remove_provisioning_network;
                 configure_tenant_networks; node_power_action states.POWER_ON;
                 process_event "done"].
Proof.
  intros env n.
  destruct (reboot_and_finish_deploy_returns n env []
              (snd (reboot_and_finish_deploy n env [])))
    as (settled & Htr & _ & _ & _ & [[_ Hsoft] | (before & -> & _)]).
  - vm_compute. reflexivity.
  - vm_compute in Hsoft. discriminate Hsoft.
  - exists before. rewrite Htr, <- app_assoc. reflexivity.
Defined.
